(** * DeviceKit-power: the power source object (devkit-power-source.c)

    A shallow embedding of [src/devkit-power-source.c].  One power source is a
    record of the fields of [struct DevkitPowerSourcePrivate]; the functions of
    the C file become functions over that record and over a [World] that holds
    what the C code reaches through GLib and D-Bus: the wall clock, the
    timeouts of the main loop, the objects registered on the bus and the log
    of the calls made.

    A C [double] is an IEEE 754 binary64 number: the primitive [float] of
    Rocq, whose operations are specified by [SpecFloat].  A C string is the
    [string] of its characters before the terminating NUL. *)

From Stdlib Require Import ZArith Lia Bool List Ascii String Floats.
Import ListNotations.

Local Open Scope string_scope.
Local Open Scope Z_scope.

(** ** C strings: the libc and GLib functions the file calls *)

Module CString.

Definition code (c : ascii) : Z := Z.of_N (N_of_ascii c).

(** [tolower] in the C locale. *)
Definition tolower (c : ascii) : ascii :=
  if (65 <=? code c) && (code c <=? 90)
  then ascii_of_N (N_of_ascii c + 32)
  else c.

(** [g_ascii_isspace]: space, horizontal tab, newline, form feed and
    carriage return; GLib's table leaves the vertical tab out. *)
Definition g_ascii_isspace (c : ascii) : bool :=
  let n := code c in
  (n =? 32) || (n =? 9) || (n =? 10) || (n =? 12) || (n =? 13).

(** [g_strchug]: drops the leading white space. *)
Fixpoint g_strchug (s : string) : string :=
  match s with
  | EmptyString => EmptyString
  | String c r => if g_ascii_isspace c then g_strchug r else s
  end.

(** [g_strchomp]: drops the trailing white space. *)
Fixpoint g_strchomp (s : string) : string :=
  match s with
  | EmptyString => EmptyString
  | String c r =>
      match g_strchomp r with
      | EmptyString => if g_ascii_isspace c then EmptyString else String c EmptyString
      | r' => String c r'
      end
  end.

(** [#define g_strstrip(string) g_strchomp (g_strchug (string))] *)
Definition g_strstrip (s : string) : string := g_strchomp (g_strchug s).

(** [strcasecmp]: the difference of the first two lowered characters that
    differ, [0] when the strings end together.  The end of a string reads
    as the NUL character, and a NUL character ends the comparison. *)
Fixpoint strcasecmp (s1 s2 : string) : Z :=
  match s1, s2 with
  | String c1 r1, String c2 r2 =>
      let d := code (tolower c1) - code (tolower c2) in
      if d =? 0 then (if code c1 =? 0 then 0 else strcasecmp r1 r2) else d
  | String c1 _, EmptyString => code (tolower c1)
  | EmptyString, String c2 _ => - code (tolower c2)
  | EmptyString, EmptyString => 0
  end.

(** What a C reader sees of a string: the characters before the first NUL. *)
Fixpoint c_str (s : string) : string :=
  match s with
  | EmptyString => EmptyString
  | String c r => if code c =? 0 then EmptyString else String c (c_str r)
  end.

Fixpoint lower (s : string) : string :=
  match s with
  | EmptyString => EmptyString
  | String c r => String (tolower c) (lower r)
  end.

(** Equality of two strings up to the case of their letters. *)
Definition eq_nocase (s t : string) : bool :=
  String.eqb (lower (c_str s)) (lower (c_str t)).

Fixpoint string_map (f : ascii -> ascii) (s : string) : string :=
  match s with
  | EmptyString => EmptyString
  | String c r => String (f c) (string_map f r)
  end.

Fixpoint string_mem (c : ascii) (s : string) : bool :=
  match s with
  | EmptyString => false
  | String c' r => Ascii.eqb c c' || string_mem c r
  end.

End CString.

Import CString.

(** ** File names: [g_path_get_basename] and [g_build_filename] *)

Module GPath.

(** [G_IS_DIR_SEPARATOR] on Unix. *)
Definition is_dir_separator (c : ascii) : bool := Ascii.eqb c "/".

Fixpoint dropwhile (p : ascii -> bool) (l : list ascii) : list ascii :=
  match l with
  | [] => []
  | c :: r => if p c then dropwhile p r else l
  end.

Fixpoint takewhile (p : ascii -> bool) (l : list ascii) : list ascii :=
  match l with
  | [] => []
  | c :: r => if p c then c :: takewhile p r else []
  end.

Definition not_separator (c : ascii) : bool := negb (is_dir_separator c).

(** [g_path_get_basename]: ["."] for the empty name; otherwise the scan
    from the end of the name first skips the separators ([last_nonslash]),
    gives ["/"] when nothing else is left, and else keeps the characters
    back to the previous separator ([base]). *)
Definition g_path_get_basename (file_name : string) : string :=
  match file_name with
  | EmptyString => "."
  | _ =>
      let from_last_nonslash :=
        dropwhile is_dir_separator (rev (list_ascii_of_string file_name)) in
      match from_last_nonslash with
      | [] => "/"
      | _ => string_of_list_ascii (rev (takewhile not_separator from_last_nonslash))
      end
  end.

(** The loop of [g_build_path_va] for the separator ["/"]: what it has
    built after some elements. *)
Record build_state := {
  result : list ascii;
  is_first : bool;
  have_leading : bool;
  single_element : option string;
  last_trailing : option (list ascii)
}.

Definition build_start : build_state :=
  {| result := []; is_first := true; have_leading := false;
     single_element := None; last_trailing := None |}.

(** One turn of the loop, for one element. *)
Definition build_element (st : build_state) (element : string) : build_state :=
  match element with
  | EmptyString => st                      (* empty elements are ignored *)
  | _ =>
      let el := list_ascii_of_string element in
      let leading := takewhile is_dir_separator el in
      let start := dropwhile is_dir_separator el in
      let middle := rev (dropwhile is_dir_separator (rev start)) in
      let trailing := rev (takewhile is_dir_separator (rev el)) in
      let single :=
        if have_leading st then None
        else match middle with
             | [] => Some element
             | _ => single_element st
             end in
      let res :=
        if have_leading st then result st else (result st ++ leading)%list in
      match middle with
      | [] =>
          {| result := res; is_first := is_first st; have_leading := true;
             single_element := single; last_trailing := Some trailing |}
      | _ =>
          {| result := ((if is_first st then res else res ++ ["/"%char]) ++ middle)%list;
             is_first := false; have_leading := true;
             single_element := single; last_trailing := Some trailing |}
      end
  end.

(** [g_build_filename (first, ..., NULL)]. *)
Definition g_build_filename (elements : list string) : string :=
  let st := fold_left build_element elements build_start in
  match single_element st with
  | Some e => e
  | None =>
      string_of_list_ascii
        (result st ++ match last_trailing st with Some t => t | None => [] end)%list
  end.

End GPath.

Import GPath.

(** ** The data model *)

(** Modelled from the spec: the enumerations of [devkit-power-enum.h], which
    is not among the sources, with the values the spec names for them (its
    list of technologies is open-ended).  A field that [g_object_new]
    zero-fills holds the first value. *)
Inductive DevkitPowerType :=
| DEVKIT_POWER_TYPE_LINE_POWER
| DEVKIT_POWER_TYPE_BATTERY.

Inductive DevkitPowerState :=
| DEVKIT_POWER_STATE_CHARGING
| DEVKIT_POWER_STATE_DISCHARGING
| DEVKIT_POWER_STATE_EMPTY
| DEVKIT_POWER_STATE_FULLY_CHARGED.

Inductive DevkitPowerTechnology :=
| DEVKIT_POWER_TECHNOLOGY_UNKNOWN
| DEVKIT_POWER_TECHNOLOGY_LITHIUM_ION
| DEVKIT_POWER_TECHNOLOGY_LEAD_ACID
| DEVKIT_POWER_TECHNOLOGY_LITHIUM_POLYMER
| DEVKIT_POWER_TECHNOLOGY_NICKEL_METAL_HYDRIDE.

(** [#define DK_POWER_MIN_CHARGED_PERCENTAGE 60] *)
Definition DK_POWER_MIN_CHARGED_PERCENTAGE : float := 60%float.

(** The device descriptor handed over by the daemon. *)
Record DevkitDevice := { devkit_device_get_native_path : string }.

(** [struct DevkitPowerSourcePrivate].  A [char *] field is [None] while it
    is [NULL]; [update_time] is the [tv_sec] of the [GTimeVal], the part the
    property [update-time] shows; [poll_timer_id] is [0] when no poll is
    pending.  The handles of the bus and of the daemon are left to the
    [World] below. *)
Record DevkitPowerSourcePrivate := mkSource {
  d : DevkitDevice;
  object_path : option string;
  native_path : string;
  poll_timer_id : Z;
  vendor : option string;
  model : option string;
  serial : option string;
  update_time : Z;
  type : DevkitPowerType;
  line_power_online : Z;
  battery_state : DevkitPowerState;
  battery_technology : DevkitPowerTechnology;
  battery_energy : float;
  battery_energy_empty : float;
  battery_energy_full : float;
  battery_energy_full_design : float;
  battery_energy_rate : float;
  battery_time_to_empty : Z;
  battery_time_to_full : Z;
  battery_percentage : float
}.

(** Assignments to one field. *)
Definition set_d v (s : DevkitPowerSourcePrivate) :=
  let '(mkSource _ op np pt ve mo se ut ty lo bs bt e ee ef ed er te tf pc) := s in
  mkSource v op np pt ve mo se ut ty lo bs bt e ee ef ed er te tf pc.
Definition set_object_path v (s : DevkitPowerSourcePrivate) :=
  let '(mkSource dd _ np pt ve mo se ut ty lo bs bt e ee ef ed er te tf pc) := s in
  mkSource dd v np pt ve mo se ut ty lo bs bt e ee ef ed er te tf pc.
Definition set_poll_timer_id v (s : DevkitPowerSourcePrivate) :=
  let '(mkSource dd op np _ ve mo se ut ty lo bs bt e ee ef ed er te tf pc) := s in
  mkSource dd op np v ve mo se ut ty lo bs bt e ee ef ed er te tf pc.
Definition set_vendor v (s : DevkitPowerSourcePrivate) :=
  let '(mkSource dd op np pt _ mo se ut ty lo bs bt e ee ef ed er te tf pc) := s in
  mkSource dd op np pt v mo se ut ty lo bs bt e ee ef ed er te tf pc.
Definition set_model v (s : DevkitPowerSourcePrivate) :=
  let '(mkSource dd op np pt ve _ se ut ty lo bs bt e ee ef ed er te tf pc) := s in
  mkSource dd op np pt ve v se ut ty lo bs bt e ee ef ed er te tf pc.
Definition set_serial v (s : DevkitPowerSourcePrivate) :=
  let '(mkSource dd op np pt ve mo _ ut ty lo bs bt e ee ef ed er te tf pc) := s in
  mkSource dd op np pt ve mo v ut ty lo bs bt e ee ef ed er te tf pc.
Definition set_update_time v (s : DevkitPowerSourcePrivate) :=
  let '(mkSource dd op np pt ve mo se _ ty lo bs bt e ee ef ed er te tf pc) := s in
  mkSource dd op np pt ve mo se v ty lo bs bt e ee ef ed er te tf pc.
Definition set_line_power_online v (s : DevkitPowerSourcePrivate) :=
  let '(mkSource dd op np pt ve mo se ut ty _ bs bt e ee ef ed er te tf pc) := s in
  mkSource dd op np pt ve mo se ut ty v bs bt e ee ef ed er te tf pc.
Definition set_battery_state v (s : DevkitPowerSourcePrivate) :=
  let '(mkSource dd op np pt ve mo se ut ty lo _ bt e ee ef ed er te tf pc) := s in
  mkSource dd op np pt ve mo se ut ty lo v bt e ee ef ed er te tf pc.
Definition set_battery_technology v (s : DevkitPowerSourcePrivate) :=
  let '(mkSource dd op np pt ve mo se ut ty lo bs _ e ee ef ed er te tf pc) := s in
  mkSource dd op np pt ve mo se ut ty lo bs v e ee ef ed er te tf pc.
Definition set_battery_energy v (s : DevkitPowerSourcePrivate) :=
  let '(mkSource dd op np pt ve mo se ut ty lo bs bt _ ee ef ed er te tf pc) := s in
  mkSource dd op np pt ve mo se ut ty lo bs bt v ee ef ed er te tf pc.
Definition set_battery_energy_full v (s : DevkitPowerSourcePrivate) :=
  let '(mkSource dd op np pt ve mo se ut ty lo bs bt e ee _ ed er te tf pc) := s in
  mkSource dd op np pt ve mo se ut ty lo bs bt e ee v ed er te tf pc.
Definition set_battery_energy_full_design v (s : DevkitPowerSourcePrivate) :=
  let '(mkSource dd op np pt ve mo se ut ty lo bs bt e ee ef _ er te tf pc) := s in
  mkSource dd op np pt ve mo se ut ty lo bs bt e ee ef v er te tf pc.
Definition set_battery_energy_rate v (s : DevkitPowerSourcePrivate) :=
  let '(mkSource dd op np pt ve mo se ut ty lo bs bt e ee ef ed _ te tf pc) := s in
  mkSource dd op np pt ve mo se ut ty lo bs bt e ee ef ed v te tf pc.
Definition set_battery_percentage v (s : DevkitPowerSourcePrivate) :=
  let '(mkSource dd op np pt ve mo se ut ty lo bs bt e ee ef ed er te tf _) := s in
  mkSource dd op np pt ve mo se ut ty lo bs bt e ee ef ed er te tf v.

(** What the file takes from the rest of the daemon and is not among the
    sources: the readers of [sysfs-utils.h], which give the attribute [name]
    of the device directory [dir] as a plain [char *], [int] or [double]
    with no room for an error, and the conversion of [devkit-power-enum.h]. *)
Record Platform := {
  sysfs_file_exists : string -> string -> bool;
  sysfs_get_string : string -> string -> string;
  sysfs_get_int : string -> string -> Z;
  sysfs_get_double : string -> string -> float;
  devkit_power_convert_acpi_technology_to_enum : string -> DevkitPowerTechnology
}.

(** *** The world outside the object *)

(** A timeout source of the GLib main loop. *)
Record Timeout := { timeout_id : Z; timeout_interval : Z; timeout_due : Z }.

(** The calls the file makes that are visible outside of it, in the order
    they are made. *)
Inductive Call :=
| G_CRITICAL (format : string)   (* by its format: the text of the GError is the bus's *)
| G_WARNING (msg : string)
| G_PRINT (msg : string)
| G_GET_CURRENT_TIME
| G_SOURCE_REMOVE (id : Z)
| G_TIMEOUT_ADD_SECONDS (interval id : Z)
| DBUS_REGISTER_OBJECT (path : string)
| SIGNAL_DEVICE_CHANGED (path : option string)   (* on the daemon *)
| SIGNAL_CHANGED                                 (* signals[CHANGED_SIGNAL] *)
| DBUS_METHOD_RETURN (context : Z).

Record World := mkWorld {
  now : Z;                      (* wall clock, in seconds *)
  timeouts : list Timeout;      (* the timeouts the main loop holds for the source *)
  next_source_id : Z;           (* the identifier the main loop gives next *)
  system_bus_up : bool;         (* whether [dbus_g_bus_get] finds the bus *)
  bus_objects : list string;    (* the object paths registered on the bus *)
  calls : list Call
}.

Definition set_timeouts v (w : World) :=
  mkWorld (now w) v (next_source_id w) (system_bus_up w) (bus_objects w) (calls w).
Definition set_next_source_id v (w : World) :=
  mkWorld (now w) (timeouts w) v (system_bus_up w) (bus_objects w) (calls w).
Definition set_bus_objects v (w : World) :=
  mkWorld (now w) (timeouts w) (next_source_id w) (system_bus_up w) v (calls w).
Definition set_now v (w : World) :=
  mkWorld v (timeouts w) (next_source_id w) (system_bus_up w) (bus_objects w) (calls w).
Definition call (c : Call) (w : World) :=
  mkWorld (now w) (timeouts w) (next_source_id w) (system_bus_up w) (bus_objects w)
          (calls w ++ [c]).

(** [g_source_remove]: the source with this identifier leaves the main loop. *)
Definition g_source_remove (id : Z) (w : World) : World :=
  call (G_SOURCE_REMOVE id)
       (set_timeouts (filter (fun t => negb (timeout_id t =? id)) (timeouts w)) w).

(** [g_timeout_add_seconds]: a new timeout, due one interval from now, under
    the next identifier of the main loop.  The identifiers come from a
    counter; that the [guint] counter could wrap around is left out. *)
Definition g_timeout_add_seconds (interval : Z) (w : World) : Z * World :=
  let id := next_source_id w in
  let t := {| timeout_id := id; timeout_interval := interval;
              timeout_due := now w + interval |} in
  (id, call (G_TIMEOUT_ADD_SECONDS interval id)
            (set_next_source_id (id + 1) (set_timeouts (t :: timeouts w) w))).

Definition g_get_current_time (w : World) : Z * World :=
  (now w, call G_GET_CURRENT_TIME w).

(** ** The functions of devkit-power-source.c *)

(** The loop of [compute_object_path_from_basename] on one character. *)
Definition dash_to_underscore (c : ascii) : ascii :=
  if Ascii.eqb c "-" then "_"%char else c.

Definition compute_object_path_from_basename (native_path_basename : string) : string :=
  let basename := g_path_get_basename native_path_basename in
  let basename := string_map dash_to_underscore basename in
  g_build_filename ["/sources/"; basename].

Definition compute_object_path (native_path : string) : string :=
  let basename := g_path_get_basename native_path in
  compute_object_path_from_basename basename.

Definition register_power_source (source : DevkitPowerSourcePrivate) (w : World)
  : bool * DevkitPowerSourcePrivate * World :=
  if negb (system_bus_up w)
  then (false, source, call (G_CRITICAL "error getting system bus: %s") w)
  else
    let path := compute_object_path (native_path source) in
    let source := set_object_path (Some path) source in
    let w := call (DBUS_REGISTER_OBJECT path)
                  (set_bus_objects (path :: bus_objects w) w) in
    (true, source, w).

(** [devkit_power_source_finalize], reached when the last reference goes. *)
Definition devkit_power_source_finalize (source : DevkitPowerSourcePrivate) (w : World)
  : World :=
  if 0 <? poll_timer_id source then g_source_remove (poll_timer_id source) w else w.

(** The end of line that closes the text of [g_print]. *)
Definition newline : string := String (ascii_of_nat 10) "".

Definition emit_changed (source : DevkitPowerSourcePrivate) (w : World) : World :=
  let w := call (G_PRINT ("emitting changed on " ++ native_path source ++ newline)) w in
  let w := call (SIGNAL_DEVICE_CHANGED (object_path source)) w in
  call SIGNAL_CHANGED w.

Definition update_line_power (pf : Platform) (source : DevkitPowerSourcePrivate)
  : bool * DevkitPowerSourcePrivate :=
  (true, set_line_power_online (sysfs_get_int pf (native_path source) "online") source).

Definition update_battery (pf : Platform) (source : DevkitPowerSourcePrivate)
  : bool * DevkitPowerSourcePrivate :=
  let dir := native_path source in
  let status := g_strstrip (sysfs_get_string pf dir "status") in
  let is_charging := strcasecmp status "charging" =? 0 in
  let is_discharging := strcasecmp status "discharging" =? 0 in
  let source :=
    set_battery_energy (sysfs_get_double pf dir "energy_now" / 1000000)%float source in
  let source :=
    set_battery_energy_full (sysfs_get_double pf dir "energy_full" / 1000000)%float source in
  let source :=
    set_battery_energy_full_design
      (sysfs_get_double pf dir "energy_full_design" / 1000000)%float source in
  let source :=
    set_battery_energy_rate
      (abs (sysfs_get_double pf dir "current_now" / 1000000))%float source in
  let source :=
    if is_charging
    then set_battery_energy_rate (battery_energy_rate source * -1)%float source
    else source in
  (* get a precise percentage *)
  let source :=
    set_battery_percentage
      (100 * battery_energy source / battery_energy_full source)%float source in
  let source :=
    if (battery_percentage source <? 0)%float
    then set_battery_percentage 0%float source else source in
  let source :=
    if (100 <? battery_percentage source)%float
    then set_battery_percentage 100%float source else source in
  (* get the state *)
  let source :=
    if is_charging then set_battery_state DEVKIT_POWER_STATE_CHARGING source
    else if is_discharging then set_battery_state DEVKIT_POWER_STATE_DISCHARGING source
    else if (DK_POWER_MIN_CHARGED_PERCENTAGE <? battery_percentage source)%float
         then set_battery_state DEVKIT_POWER_STATE_FULLY_CHARGED source
    else set_battery_state DEVKIT_POWER_STATE_EMPTY source in
  (true, source).

(** The [default] branch of the [switch] asserts that it is not reached;
    with the two values of the type there is nothing left for it. *)
Definition update (pf : Platform) (source : DevkitPowerSourcePrivate) (w : World)
  : bool * DevkitPowerSourcePrivate * World :=
  let '(source, w) :=
    if 0 <? poll_timer_id source
    then (set_poll_timer_id 0 source, g_source_remove (poll_timer_id source) w)
    else (source, w) in
  (* initial values *)
  let source :=
    match vendor source with
    | None =>
        let dir := native_path source in
        let s := g_strstrip (sysfs_get_string pf dir "technology") in
        let source :=
          set_battery_technology (devkit_power_convert_acpi_technology_to_enum pf s) source in
        let source :=
          set_vendor (Some (g_strstrip (sysfs_get_string pf dir "manufacturer"))) source in
        let source :=
          set_model (Some (g_strstrip (sysfs_get_string pf dir "model_name"))) source in
        set_serial (Some (g_strstrip (sysfs_get_string pf dir "serial_number"))) source
    | Some _ => source
    end in
  let '(t, w) := g_get_current_time w in
  let source := set_update_time t source in
  match type source with
  | DEVKIT_POWER_TYPE_LINE_POWER =>
      let '(ret, source) := update_line_power pf source in
      (ret, source, w)
  | DEVKIT_POWER_TYPE_BATTERY =>
      let '(ret, source) := update_battery pf source in
      let '(id, w) := g_timeout_add_seconds 30 w in
      (ret, set_poll_timer_id id source, w)
  end.

Definition _poll_battery (pf : Platform) (source : DevkitPowerSourcePrivate) (w : World)
  : bool * DevkitPowerSourcePrivate * World :=
  let w :=
    call (G_WARNING ("No updates on source " ++ native_path source
                     ++ " for 30 seconds; forcing update")) w in
  let source := set_poll_timer_id 0 source in
  let '(_, source, w) := update pf source w in
  let w := emit_changed source w in
  (false, source, w).

(** The instance as [devkit_power_source_new] has it before the first
    update: zero-filled by [g_object_new], the two times set to [-1] by
    [devkit_power_source_init], then [d], [native_path] and [type] set. *)
Definition new_instance (dev : DevkitDevice) (ty : DevkitPowerType)
  : DevkitPowerSourcePrivate :=
  {| d := dev;
     object_path := None;
     native_path := devkit_device_get_native_path dev;
     poll_timer_id := 0;
     vendor := None; model := None; serial := None;
     update_time := 0;
     type := ty;
     line_power_online := 0;
     battery_state := DEVKIT_POWER_STATE_CHARGING;
     battery_technology := DEVKIT_POWER_TECHNOLOGY_UNKNOWN;
     battery_energy := 0; battery_energy_empty := 0; battery_energy_full := 0;
     battery_energy_full_design := 0; battery_energy_rate := 0;
     battery_time_to_empty := -1; battery_time_to_full := -1;
     battery_percentage := 0 |}.

(** [devkit_power_source_new]: the source, or [None] for [NULL]. *)
Definition devkit_power_source_new (pf : Platform) (dev : DevkitDevice) (w : World)
  : option DevkitPowerSourcePrivate * World :=
  let native_path := devkit_device_get_native_path dev in
  let source :=
    new_instance dev
      (if sysfs_file_exists pf native_path "online"
       then DEVKIT_POWER_TYPE_LINE_POWER
       else DEVKIT_POWER_TYPE_BATTERY) in
  let '(ok, source, w) := update pf source w in
  if negb ok then (None, devkit_power_source_finalize source w)
  else
    let '(ok, source, w) := register_power_source source w in
    if negb ok then (None, devkit_power_source_finalize source w)
    else (Some source, w).

Definition devkit_power_source_changed
  (pf : Platform) (dev : DevkitDevice) (synthesized : bool)
  (source : DevkitPowerSourcePrivate) (w : World)
  : bool * DevkitPowerSourcePrivate * World :=
  let source := set_d dev source in
  let '(keep_source, source, w) := update pf source w in
  (* this 'change' event might prompt us to remove the source *)
  if negb keep_source then (keep_source, source, w)
  else (keep_source, source, emit_changed source w).

Definition devkit_power_source_refresh
  (pf : Platform) (context : Z) (source : DevkitPowerSourcePrivate) (w : World)
  : bool * DevkitPowerSourcePrivate * World :=
  let '(_, source, w) := update pf source w in
  (true, source, call (DBUS_METHOD_RETURN context) w).

(** The main loop runs the timeout [t]: it calls [_poll_battery], and
    destroys the timeout when the callback returns [FALSE], sets it one
    interval further otherwise. *)
Definition dispatch_timeout (pf : Platform) (t : Timeout)
  (source : DevkitPowerSourcePrivate) (w : World) : DevkitPowerSourcePrivate * World :=
  let '(again, source, w) := _poll_battery pf source w in
  let others := filter (fun t' => negb (timeout_id t' =? timeout_id t)) (timeouts w) in
  if again
  then (source, set_timeouts
                  ({| timeout_id := timeout_id t; timeout_interval := timeout_interval t;
                      timeout_due := now w + timeout_interval t |} :: others) w)
  else (source, set_timeouts others w).

(** ** Reading the calls of a run *)

Definition is_update_call (c : Call) : bool :=
  match c with G_GET_CURRENT_TIME => true | _ => false end.

Definition is_changed_signal (c : Call) : bool :=
  match c with SIGNAL_CHANGED => true | _ => false end.

Definition is_daemon_signal (c : Call) : bool :=
  match c with SIGNAL_DEVICE_CHANGED _ => true | _ => false end.

Definition count_calls (p : Call -> bool) (l : list Call) : nat :=
  List.length (filter p l).

(** The calls made between the worlds [w] and [w']. *)
Definition calls_since (w w' : World) : list Call :=
  skipn (List.length (calls w)) (calls w').

(** ** The life of a source *)

(** What can happen to a source once it is built: the daemon passes on a
    change of the device, a bus client calls [Refresh], the main loop runs a
    timeout that is due, time passes. *)
Inductive Input :=
| DEVICE_CHANGED (pf : Platform) (dev : DevkitDevice) (synthesized : bool)
| REFRESH (pf : Platform) (context : Z)
| TIMEOUT (pf : Platform) (t : Timeout)
| ELAPSE (seconds : Z).

Definition Live : Type := DevkitPowerSourcePrivate * World.

Inductive step : Live -> Input -> Live -> Prop :=
| step_changed pf dev synthesized source w keep source' w' :
    devkit_power_source_changed pf dev synthesized source w = (keep, source', w') ->
    step (source, w) (DEVICE_CHANGED pf dev synthesized) (source', w')
| step_refresh pf context source w ret source' w' :
    devkit_power_source_refresh pf context source w = (ret, source', w') ->
    step (source, w) (REFRESH pf context) (source', w')
| step_timeout pf t source w source' w' :
    In t (timeouts w) ->
    timeout_due t <= now w ->
    dispatch_timeout pf t source w = (source', w') ->
    step (source, w) (TIMEOUT pf t) (source', w')
| step_elapse seconds source w :
    0 <= seconds ->
    step (source, w) (ELAPSE seconds) (source, set_now (now w + seconds) w).

(** The states a source goes through: it is built in a world where the main
    loop holds no timeout of its own yet, and whose identifiers start above
    [0] as GLib's do. *)
Inductive reachable : Live -> Prop :=
| reachable_new pf dev w source w' :
    timeouts w = [] ->
    0 < next_source_id w ->
    devkit_power_source_new pf dev w = (Some source, w') ->
    reachable (source, w')
| reachable_step st i st' :
    reachable st -> step st i st' -> reachable st'.

(** The poll timer of [source] is the one timeout of the main loop, set
    thirty seconds after the last update; without a poll timer the main loop
    holds none. *)
Definition timer_invariant (st : Live) : Prop :=
  let (source, w) := st in
  0 < next_source_id w /\
  ((poll_timer_id source = 0 /\ timeouts w = []) \/
   (0 < poll_timer_id source < next_source_id w /\
    type source = DEVKIT_POWER_TYPE_BATTERY /\
    timeouts w = [{| timeout_id := poll_timer_id source;
                     timeout_interval := 30;
                     timeout_due := update_time source + 30 |}])).

(** ** Words of the specification *)

(** [x] brought into the interval from [lo] to [hi]. *)
Definition clamp (lo hi x : float) : float :=
  if (x <? lo)%float then lo else if (hi <? x)%float then hi else x.

(** A native path names a device when it has a character other than ['/']. *)
Fixpoint names_a_device (native_path : string) : bool :=
  match native_path with
  | EmptyString => false
  | String c r => not_separator c || names_a_device r
  end.

(** The attributes a battery update reads. *)
Definition battery_attributes : list string :=
  ["status"; "energy_now"; "energy_full"; "energy_full_design"; "current_now";
   "technology"; "manufacturer"; "model_name"; "serial_number"].

(** A segment of a path: characters between two separators, at least one. *)
Definition segment (b : list ascii) : Prop :=
  b <> [] /\ forallb not_separator b = true.

(** The timeouts left by the test at the head of [update]. *)
Definition after_disarm (source : DevkitPowerSourcePrivate) (w : World) : list Timeout :=
  if 0 <? poll_timer_id source
  then filter (fun t => negb (timeout_id t =? poll_timer_id source)) (timeouts w)
  else timeouts w.

(** The calls of one [update], in order. *)
Definition update_calls (source : DevkitPowerSourcePrivate) (w : World) : list Call :=
  ((if 0 <? poll_timer_id source then [G_SOURCE_REMOVE (poll_timer_id source)] else [])
   ++ G_GET_CURRENT_TIME
   :: match type source with
      | DEVKIT_POWER_TYPE_BATTERY => [G_TIMEOUT_ADD_SECONDS 30 (next_source_id w)]
      | DEVKIT_POWER_TYPE_LINE_POWER => []
      end)%list.

(** Numbers of the binary64 specification: everything but NaN; and the
    three shapes a rounded result of sign [s] can take. *)
Definition number (x : spec_float) : Prop := x <> S754_nan.

Definition signed_number (s : bool) (x : spec_float) : Prop :=
  x = S754_zero s \/ x = S754_infinity s \/ exists m e, x = S754_finite s m e.

(** ** Test devices *)

(** A battery directory with the given attributes; it has no [online]. *)
Definition battery_dir (status : string) (energy_now energy_full current_now : float)
  : Platform :=
  {| sysfs_file_exists := fun _ name => negb (String.eqb name "online");
     sysfs_get_string := fun _ name =>
       if String.eqb name "status" then status
       else if String.eqb name "technology" then "Li-ion"
       else if String.eqb name "manufacturer" then "SANYO"
       else if String.eqb name "model_name" then "42T4511"
       else "1234";
     sysfs_get_int := fun _ _ => 0;
     sysfs_get_double := fun _ name =>
       if String.eqb name "energy_now" then energy_now
       else if String.eqb name "energy_full" then energy_full
       else if String.eqb name "energy_full_design" then energy_full
       else current_now;
     devkit_power_convert_acpi_technology_to_enum := fun s =>
       if String.eqb s "Li-ion" then DEVKIT_POWER_TECHNOLOGY_LITHIUM_ION
       else DEVKIT_POWER_TECHNOLOGY_UNKNOWN |}.

(** A directory without any attribute: every reader gives what it gives
    for a file it cannot read, here the empty string and zero. *)
Definition bare_dir : Platform :=
  {| sysfs_file_exists := fun _ _ => false;
     sysfs_get_string := fun _ _ => "";
     sysfs_get_int := fun _ _ => 0;
     sysfs_get_double := fun _ _ => 0%float;
     devkit_power_convert_acpi_technology_to_enum := fun _ =>
       DEVKIT_POWER_TECHNOLOGY_UNKNOWN |}.

Definition BAT0 : DevkitDevice :=
  {| devkit_device_get_native_path := "/sys/class/power_supply/BAT0" |}.

Definition boot : World :=
  {| now := 1000; timeouts := []; next_source_id := 1; system_bus_up := true;
     bus_objects := []; calls := [] |}.

(** ** The properties of the object: [get_property] and the class *)

(** The anonymous [enum] of property identifiers. *)
Definition PROP_0 : Z := 0.
Definition PROP_NATIVE_PATH : Z := 1.
Definition PROP_VENDOR : Z := 2.
Definition PROP_MODEL : Z := 3.
Definition PROP_SERIAL : Z := 4.
Definition PROP_UPDATE_TIME : Z := 5.
Definition PROP_TYPE : Z := 6.
Definition PROP_LINE_POWER_ONLINE : Z := 7.
Definition PROP_BATTERY_STATE : Z := 8.
Definition PROP_BATTERY_ENERGY : Z := 9.
Definition PROP_BATTERY_ENERGY_EMPTY : Z := 10.
Definition PROP_BATTERY_ENERGY_FULL : Z := 11.
Definition PROP_BATTERY_ENERGY_FULL_DESIGN : Z := 12.
Definition PROP_BATTERY_ENERGY_RATE : Z := 13.
Definition PROP_BATTERY_TIME_TO_EMPTY : Z := 14.
Definition PROP_BATTERY_TIME_TO_FULL : Z := 15.
Definition PROP_BATTERY_PERCENTAGE : Z := 16.
Definition PROP_BATTERY_TECHNOLOGY : Z := 17.

(** A [GValue], by the setter that filled it. *)
Inductive GValue :=
| G_VALUE_STRING (s : option string)
| G_VALUE_UINT64 (n : Z)
| G_VALUE_BOOLEAN (b : bool)
| G_VALUE_DOUBLE (x : float)
| G_VALUE_INT64 (n : Z).

(** The conversions to text of [devkit-power-enum.h], not among the
    sources. *)
Record EnumText := {
  devkit_power_convert_type_to_text : DevkitPowerType -> string;
  devkit_power_convert_state_to_text : DevkitPowerState -> string;
  devkit_power_convert_technology_to_text : DevkitPowerTechnology -> string
}.

Definition G_MAXUINT64 : Z := 18446744073709551615.
Definition G_MAXINT64 : Z := 9223372036854775807.
Definition G_MAXDOUBLE : float := 0x1.fffffffffffffp+1023%float.

(** [g_value_set_uint64] of a [glong]: the conversion to [guint64] wraps. *)
Definition to_guint64 (n : Z) : Z := n mod (G_MAXUINT64 + 1).

(** [g_value_set_boolean] keeps whether its argument differs from [FALSE]. *)
Definition to_gboolean (n : Z) : bool := negb (n =? 0).

(** [get_property]: the [switch] on [prop_id]; the [default] branch warns
    (the text of the warning is cut short here) and leaves [value] alone. *)
Definition get_property (et : EnumText) (prop_id : Z) (value : GValue)
  (source : DevkitPowerSourcePrivate) (w : World) : GValue * World :=
  if prop_id =? PROP_NATIVE_PATH then (G_VALUE_STRING (Some (native_path source)), w)
  else if prop_id =? PROP_VENDOR then (G_VALUE_STRING (vendor source), w)
  else if prop_id =? PROP_MODEL then (G_VALUE_STRING (model source), w)
  else if prop_id =? PROP_SERIAL then (G_VALUE_STRING (serial source), w)
  else if prop_id =? PROP_UPDATE_TIME
       then (G_VALUE_UINT64 (to_guint64 (update_time source)), w)
  else if prop_id =? PROP_TYPE
       then (G_VALUE_STRING (Some (devkit_power_convert_type_to_text et (type source))), w)
  else if prop_id =? PROP_LINE_POWER_ONLINE
       then (G_VALUE_BOOLEAN (to_gboolean (line_power_online source)), w)
  else if prop_id =? PROP_BATTERY_STATE
       then (G_VALUE_STRING
               (Some (devkit_power_convert_state_to_text et (battery_state source))), w)
  else if prop_id =? PROP_BATTERY_ENERGY then (G_VALUE_DOUBLE (battery_energy source), w)
  else if prop_id =? PROP_BATTERY_ENERGY_EMPTY
       then (G_VALUE_DOUBLE (battery_energy_empty source), w)
  else if prop_id =? PROP_BATTERY_ENERGY_FULL
       then (G_VALUE_DOUBLE (battery_energy_full source), w)
  else if prop_id =? PROP_BATTERY_ENERGY_FULL_DESIGN
       then (G_VALUE_DOUBLE (battery_energy_full_design source), w)
  else if prop_id =? PROP_BATTERY_ENERGY_RATE
       then (G_VALUE_DOUBLE (battery_energy_rate source), w)
  else if prop_id =? PROP_BATTERY_TIME_TO_EMPTY
       then (G_VALUE_INT64 (battery_time_to_empty source), w)
  else if prop_id =? PROP_BATTERY_TIME_TO_FULL
       then (G_VALUE_INT64 (battery_time_to_full source), w)
  else if prop_id =? PROP_BATTERY_PERCENTAGE
       then (G_VALUE_DOUBLE (battery_percentage source), w)
  else if prop_id =? PROP_BATTERY_TECHNOLOGY
       then (G_VALUE_STRING
               (Some (devkit_power_convert_technology_to_text et
                        (battery_technology source))), w)
  else (value, call (G_WARNING "invalid property id") w).

(** A [GParamSpec], by the function that made it: its name, its bounds
    where it has some, and its default.  Nick and blurb are [NULL] and the
    flags [G_PARAM_READABLE] throughout. *)
Inductive GParamSpec :=
| g_param_spec_string (name : string) (default : option string)
| g_param_spec_uint64 (name : string) (minimum maximum default : Z)
| g_param_spec_boolean (name : string) (default : bool)
| g_param_spec_double (name : string) (minimum maximum default : float)
| g_param_spec_int64 (name : string) (minimum maximum default : Z).

(** The properties [devkit_power_source_class_init] installs, in its order. *)
Definition devkit_power_source_class_init : list (Z * GParamSpec) :=
  [ (PROP_NATIVE_PATH, g_param_spec_string "native-path" None);
    (PROP_VENDOR, g_param_spec_string "vendor" None);
    (PROP_MODEL, g_param_spec_string "model" None);
    (PROP_SERIAL, g_param_spec_string "serial" None);
    (PROP_UPDATE_TIME, g_param_spec_uint64 "update-time" 0 G_MAXUINT64 0);
    (PROP_TYPE, g_param_spec_string "type" None);
    (PROP_LINE_POWER_ONLINE, g_param_spec_boolean "line-power-online" false);
    (PROP_BATTERY_ENERGY, g_param_spec_double "battery-energy" 0 G_MAXDOUBLE 0);
    (PROP_BATTERY_STATE, g_param_spec_string "battery-state" None);
    (PROP_BATTERY_ENERGY_EMPTY,
     g_param_spec_double "battery-energy-empty" 0 G_MAXDOUBLE 0);
    (PROP_BATTERY_ENERGY_FULL,
     g_param_spec_double "battery-energy-full" 0 G_MAXDOUBLE 0);
    (PROP_BATTERY_ENERGY_FULL_DESIGN,
     g_param_spec_double "battery-energy-full-design" 0 G_MAXDOUBLE 0);
    (PROP_BATTERY_ENERGY_RATE,
     g_param_spec_double "battery-energy-rate" (- G_MAXDOUBLE) G_MAXDOUBLE 0);
    (PROP_BATTERY_TIME_TO_EMPTY,
     g_param_spec_int64 "battery-time-to-empty" (-1) G_MAXINT64 (-1));
    (PROP_BATTERY_TIME_TO_FULL,
     g_param_spec_int64 "battery-time-to-full" (-1) G_MAXINT64 (-1));
    (PROP_BATTERY_PERCENTAGE, g_param_spec_double "battery-percentage" (-1) 100 (-1));
    (PROP_BATTERY_TECHNOLOGY, g_param_spec_string "battery-technology" None) ].

(** The spec installed under an identifier, if any. *)
Fixpoint installed (prop_id : Z) (class : list (Z * GParamSpec)) : option GParamSpec :=
  match class with
  | [] => None
  | (id, pspec) :: rest => if prop_id =? id then Some pspec else installed prop_id rest
  end.

(** A value is valid for a spec when it has the type of the spec and lies
    within its bounds. *)
Definition valid_for (pspec : GParamSpec) (value : GValue) : bool :=
  match pspec, value with
  | g_param_spec_string _ _, G_VALUE_STRING _ => true
  | g_param_spec_boolean _ _, G_VALUE_BOOLEAN _ => true
  | g_param_spec_uint64 _ lo hi _, G_VALUE_UINT64 n => (lo <=? n) && (n <=? hi)
  | g_param_spec_int64 _ lo hi _, G_VALUE_INT64 n => (lo <=? n) && (n <=? hi)
  | g_param_spec_double _ lo hi _, G_VALUE_DOUBLE x => ((lo <=? x) && (x <=? hi))%float
  | _, _ => false
  end.

(** The type of a value and of a spec. *)
Inductive GType := G_TYPE_STRING | G_TYPE_UINT64 | G_TYPE_BOOLEAN | G_TYPE_DOUBLE | G_TYPE_INT64.

Definition value_type (value : GValue) : GType :=
  match value with
  | G_VALUE_STRING _ => G_TYPE_STRING
  | G_VALUE_UINT64 _ => G_TYPE_UINT64
  | G_VALUE_BOOLEAN _ => G_TYPE_BOOLEAN
  | G_VALUE_DOUBLE _ => G_TYPE_DOUBLE
  | G_VALUE_INT64 _ => G_TYPE_INT64
  end.

Definition pspec_type (pspec : GParamSpec) : GType :=
  match pspec with
  | g_param_spec_string _ _ => G_TYPE_STRING
  | g_param_spec_uint64 _ _ _ _ => G_TYPE_UINT64
  | g_param_spec_boolean _ _ => G_TYPE_BOOLEAN
  | g_param_spec_double _ _ _ _ => G_TYPE_DOUBLE
  | g_param_spec_int64 _ _ _ _ => G_TYPE_INT64
  end.

(** [devkit_power_source_get_object_path]. *)
Definition devkit_power_source_get_object_path (source : DevkitPowerSourcePrivate)
  : option string := object_path source.

(** [devkit_power_source_removed] has an empty body. *)
Definition devkit_power_source_removed (source : DevkitPowerSourcePrivate) (w : World)
  : DevkitPowerSourcePrivate * World := (source, w).

(** ** More words for the properties below *)

Fixpoint all_space (s : string) : bool :=
  match s with
  | EmptyString => true
  | String c r => g_ascii_isspace c && all_space r
  end.

(** Two platforms that give the same readings for the attributes of [dir]
    that an update looks at, and convert technologies alike. *)
Definition same_readings (dir : string) (pf pf' : Platform) : Prop :=
  (forall name, In name ("online" :: battery_attributes) ->
     sysfs_get_string pf dir name = sysfs_get_string pf' dir name /\
     sysfs_get_int pf dir name = sysfs_get_int pf' dir name /\
     sysfs_get_double pf dir name = sysfs_get_double pf' dir name) /\
  (forall s, devkit_power_convert_acpi_technology_to_enum pf s
             = devkit_power_convert_acpi_technology_to_enum pf' s).

(** The fields no update disturbs: the times stay unknown, the percentage
    is a clamped ratio, and the fields of the other type of device are as
    [g_object_new] left them. *)
Definition fields_settled (source : DevkitPowerSourcePrivate) : Prop :=
  (battery_time_to_empty source = -1 /\ battery_time_to_full source = -1 /\
   battery_energy_empty source = 0%float) /\
  (exists ratio, battery_percentage source = clamp 0 100 ratio) /\
  match type source with
  | DEVKIT_POWER_TYPE_LINE_POWER =>
      poll_timer_id source = 0 /\
      battery_state source = DEVKIT_POWER_STATE_CHARGING /\
      battery_energy source = 0%float /\ battery_energy_full source = 0%float /\
      battery_energy_full_design source = 0%float /\
      battery_energy_rate source = 0%float /\ battery_percentage source = 0%float
  | DEVKIT_POWER_TYPE_BATTERY => line_power_online source = 0
  end.

(** What holds of a source all its life, besides its timer: its fields are
    settled, its strings are set, and the object is on the bus under the
    path of its native path. *)
Definition settled (st : Live) : Prop :=
  let (source, w) := st in
  fields_settled source /\
  (vendor source <> None /\ model source <> None /\ serial source <> None) /\
  (object_path source = Some (compute_object_path (native_path source)) /\
   In (compute_object_path (native_path source)) (bus_objects w)).

(** * Proofs *)

(** ** The library functions on examples *)

Example basename_sysfs :
  g_path_get_basename "/sys/class/power_supply/BAT0" = "BAT0".
Proof. reflexivity. Qed.

Example basename_trailing : g_path_get_basename "/sys/dm-0//" = "dm-0".
Proof. reflexivity. Qed.

Example basename_root : g_path_get_basename "//" = "/".
Proof. reflexivity. Qed.

Example build_sources : g_build_filename ["/sources/"; "dm_0"] = "/sources/dm_0".
Proof. reflexivity. Qed.

Example build_root : g_build_filename ["/sources/"; "/"] = "/sources/".
Proof. reflexivity. Qed.

Example strip_status : g_strstrip ("  Charging" ++ String "010" " ") = "Charging".
Proof. reflexivity. Qed.

Example strcasecmp_charging : strcasecmp "ChArGiNg" "charging" = 0.
Proof. reflexivity. Qed.

Example strcasecmp_prefix : strcasecmp "charging" "discharging" = -1.
Proof. reflexivity. Qed.

(** ** Case-insensitive comparison *)

Lemma code_inj c1 c2 : code c1 = code c2 -> c1 = c2.
Proof.
  unfold code; intros H; apply N2Z.inj in H.
  rewrite <- (ascii_N_embedding c1), <- (ascii_N_embedding c2); congruence.
Qed.

Lemma code_diff_zero c1 c2 : (code c1 - code c2 =? 0) = Ascii.eqb c1 c2.
Proof.
  destruct (Ascii.eqb_spec c1 c2) as [-> | N].
  - rewrite Z.sub_diag; reflexivity.
  - apply Z.eqb_neq; intros H; apply N, code_inj; lia.
Qed.

Lemma tolower_nul c : (code (tolower c) =? 0) = (code c =? 0).
Proof. destruct c as [[] [] [] [] [] [] [] []]; reflexivity. Qed.

Lemma opp_eqb_zero x : (- x =? 0) = (x =? 0).
Proof. destruct (Z.eqb_spec x 0), (Z.eqb_spec (- x) 0); lia || reflexivity. Qed.

(** [strcasecmp] gives [0] exactly on strings equal up to case. *)
Lemma strcasecmp_eq_nocase s t : (strcasecmp s t =? 0) = eq_nocase s t.
Proof.
  unfold eq_nocase; revert t; induction s as [| c1 r1 IH]; intros [| c2 r2];
    cbn [strcasecmp c_str].
  - reflexivity.
  - rewrite opp_eqb_zero, tolower_nul; destruct (code c2 =? 0); reflexivity.
  - rewrite tolower_nul; destruct (code c1 =? 0); reflexivity.
  - rewrite code_diff_zero.
    pose proof (tolower_nul c1) as N1; pose proof (tolower_nul c2) as N2.
    destruct (Ascii.eqb_spec (tolower c1) (tolower c2)) as [E | N].
    + rewrite E, N2 in N1; rewrite <- N1.
      destruct (code c2 =? 0); [reflexivity |].
      cbn [lower String.eqb]; rewrite E, Ascii.eqb_refl; apply IH.
    + apply Ascii.eqb_neq in N; rewrite code_diff_zero, N.
      destruct (code c1 =? 0) eqn:Z1, (code c2 =? 0) eqn:Z2;
        cbn [lower String.eqb]; try reflexivity.
      * apply Z.eqb_eq in N1, N2; apply Ascii.eqb_neq in N; elim N.
        apply code_inj; congruence.
      * rewrite N; reflexivity.
Qed.

Ltac destruct_source s :=
  destruct s as [dd op np pt ve mo se ut ty lo bs bt e ee ef ed er te tf pc].

Ltac source_fields :=
  cbn [d object_path native_path poll_timer_id vendor model serial update_time type
       line_power_online battery_state battery_technology battery_energy
       battery_energy_empty battery_energy_full battery_energy_full_design
       battery_energy_rate battery_time_to_empty battery_time_to_full
       battery_percentage
       set_d set_object_path set_poll_timer_id set_vendor set_model set_serial
       set_update_time set_line_power_online set_battery_state
       set_battery_technology set_battery_energy set_battery_energy_full
       set_battery_energy_full_design set_battery_energy_rate
       set_battery_percentage fst snd] in *.

Ltac float_constants :=
  change (100 <? 0)%float with false in *;
  change (DK_POWER_MIN_CHARGED_PERCENTAGE <? 0)%float with false in *;
  change (DK_POWER_MIN_CHARGED_PERCENTAGE <? 100)%float with true in *.

Ltac run_battery :=
  repeat first
    [ progress source_fields
    | progress float_constants
    | match goal with
      | |- context [if ?b then _ else _] =>
          lazymatch b with
          | context [if _ then _ else _] => fail
          | _ => destruct b eqn:?
          end
      end ].

(** The fields [update_battery] writes, each as the C code computes it. *)
Lemma update_battery_fields pf source :
  let dir := native_path source in
  let status := g_strstrip (sysfs_get_string pf dir "status") in
  let is_charging := strcasecmp status "charging" =? 0 in
  let is_discharging := strcasecmp status "discharging" =? 0 in
  let rate := abs (sysfs_get_double pf dir "current_now" / 1000000)%float in
  let s' := snd (update_battery pf source) in
  let ratio := (100 * battery_energy s' / battery_energy_full s')%float in
  let low := if (ratio <? 0)%float then 0%float else ratio in
  battery_energy s' = (sysfs_get_double pf dir "energy_now" / 1000000)%float /\
  battery_energy_full s' = (sysfs_get_double pf dir "energy_full" / 1000000)%float /\
  battery_energy_full_design s' =
    (sysfs_get_double pf dir "energy_full_design" / 1000000)%float /\
  battery_energy_rate s' = (if is_charging then (rate * -1)%float else rate) /\
  battery_percentage s' = (if (100 <? low)%float then 100%float else low) /\
  battery_state s' =
    (if is_charging then DEVKIT_POWER_STATE_CHARGING
     else if is_discharging then DEVKIT_POWER_STATE_DISCHARGING
     else if (DK_POWER_MIN_CHARGED_PERCENTAGE <? battery_percentage s')%float
          then DEVKIT_POWER_STATE_FULLY_CHARGED
     else DEVKIT_POWER_STATE_EMPTY).
Proof.
  destruct_source source; unfold update_battery; cbv zeta; source_fields.
  set (st := g_strstrip _).
  destruct (strcasecmp st "charging" =? 0), (strcasecmp st "discharging" =? 0);
    run_battery; repeat split; congruence.
Qed.

(** What [update_battery] leaves alone, and what it returns. *)
Lemma update_battery_frame pf source :
  let s' := snd (update_battery pf source) in
  fst (update_battery pf source) = true /\
  d s' = d source /\
  native_path s' = native_path source /\ type s' = type source /\
  poll_timer_id s' = poll_timer_id source /\ vendor s' = vendor source /\
  model s' = model source /\ serial s' = serial source /\
  update_time s' = update_time source /\ object_path s' = object_path source /\
  battery_time_to_empty s' = battery_time_to_empty source /\
  battery_time_to_full s' = battery_time_to_full source.
Proof.
  destruct_source source; unfold update_battery; cbv zeta; source_fields.
  set (st := g_strstrip _).
  destruct (strcasecmp st "charging" =? 0), (strcasecmp st "discharging" =? 0);
    run_battery; repeat split.
Qed.

(** ** Binary64 arithmetic, read on its specification *)

Module FloatFacts.

Lemma iter_pos_invariant {A} (P : A -> Prop) (f : A -> A) :
  (forall x, P x -> P (f x)) -> forall n x, P x -> P (iter_pos f n x).
Proof.
  intros Hf n; induction n as [n IH | n IH |]; intros x Hx; simpl; auto.
Qed.

Lemma shr_1_nonneg mrs : 0 <= shr_m mrs -> 0 <= shr_m (shr_1 mrs).
Proof.
  destruct mrs as [m r s]; simpl.
  destruct m as [| p | p]; simpl; intros H; try lia;
    destruct p; simpl; lia.
Qed.

Lemma shr_nonneg mrs e n : 0 <= shr_m mrs -> 0 <= shr_m (fst (shr mrs e n)).
Proof.
  intros H; destruct n as [| p | p]; simpl; auto.
  apply (iter_pos_invariant (fun x => 0 <= shr_m x)); auto using shr_1_nonneg.
Qed.

Lemma shr_fexp_nonneg m e l :
  0 <= m -> 0 <= shr_m (fst (shr_fexp prec emax m e l)).
Proof.
  intros H; unfold shr_fexp; apply shr_nonneg.
  destruct l as [| []]; simpl; exact H.
Qed.

Lemma round_nearest_even_nonneg m l : 0 <= m -> 0 <= round_nearest_even m l.
Proof.
  intros H; destruct l as [| []]; simpl; try lia.
  destruct (Z.even m); lia.
Qed.

Lemma binary_round_aux_number s m e l :
  0 <= m -> signed_number s (binary_round_aux prec emax s m e l).
Proof.
  intros H; unfold binary_round_aux.
  pose proof (shr_fexp_nonneg m e l H) as H1.
  destruct (shr_fexp prec emax m e l) as [mrs' e']; simpl in H1.
  pose proof (shr_fexp_nonneg _ e' loc_Exact
                (round_nearest_even_nonneg _ (loc_of_shr_record mrs') H1)) as H2.
  destruct (shr_fexp prec emax _ e' loc_Exact) as [mrs'' e'']; simpl in H2.
  destruct (shr_m mrs'') as [| p | p]; [left; reflexivity | | lia].
  destruct (e'' <=? emax - prec); right; [right; eauto | left; reflexivity].
Qed.

Lemma SFdiv_core_nonneg m1 e1 m2 e2 :
  0 <= fst (fst (SFdiv_core_binary prec emax (Zpos m1) e1 (Zpos m2) e2)).
Proof.
  unfold SFdiv_core_binary.
  set (s := _ - _ - Z.min _ _).
  set (m' := match s with Z0 => _ | Zpos _ => _ | Zneg _ => _ end).
  assert (Hm : 0 <= m').
  { subst m'; destruct s; try lia. apply Z.shiftl_nonneg; lia. }
  pose proof (Z_div_mod m' (Zpos m2) eq_refl) as Hd.
  destruct (Z.div_eucl m' (Zpos m2)) as [q r]; simpl.
  destruct Hd as [Hd Hr]. nia.
Qed.

Lemma signed_number_number s x : signed_number s x -> number x.
Proof. intros [-> | [-> | (m & e & ->)]]; discriminate. Qed.

(** A product with a finite factor is NaN only for a NaN factor. *)
Lemma SFmul_by_finite_number s m e x :
  number x -> number (SF64mul (S754_finite s m e) x).
Proof.
  intros Hx; destruct x as [sx | sx | | sx mx ex]; simpl;
    try discriminate; try (now elim Hx).
  eapply signed_number_number, binary_round_aux_number; lia.
Qed.

(** A quotient by a finite number other than zero is NaN only for a NaN
    numerator. *)
Lemma SFdiv_by_finite_number x s m e :
  number x -> number (SF64div x (S754_finite s m e)).
Proof.
  intros Hx; destruct x as [sx | sx | | sx mx ex]; simpl;
    try discriminate; try (now elim Hx).
  pose proof (SFdiv_core_nonneg mx ex m e) as H.
  destruct (SFdiv_core_binary prec emax (Zpos mx) ex (Zpos m) e) as [[q e'] l].
  simpl in H. eapply signed_number_number, binary_round_aux_number; exact H.
Qed.

(** *** Comparisons *)

Lemma SFcompare_antisym x y :
  SFcompare y x = option_map CompOpp (SFcompare x y).
Proof.
  destruct x as [sx | sx | | sx mx ex], y as [sy | sy | | sy my ey]; simpl;
    try reflexivity;
    try (destruct sx; reflexivity); try (destruct sy; reflexivity);
    try (destruct sx, sy; reflexivity).
  destruct sx, sy; simpl; try reflexivity;
    rewrite (Z.compare_antisym ey ex), (ZC4 mx my);
    destruct (ey ?= ex); simpl; try reflexivity;
    destruct (Pos.compare_cont Eq my mx); reflexivity.
Qed.

Lemma SFcompare_number x y :
  number x -> number y -> exists c, SFcompare x y = Some c.
Proof.
  intros Hx Hy.
  destruct x as [sx | sx | | sx mx ex], y as [sy | sy | | sy my ey]; simpl;
    try (now elim Hx); try (now elim Hy); eauto.
Qed.

(** Among numbers, [x < y] fails exactly when [y <= x]. *)
Lemma SFltb_false_SFleb x y :
  number x -> number y -> SFltb x y = false -> SFleb y x = true.
Proof.
  intros Hx Hy; unfold SFltb, SFleb; rewrite (SFcompare_antisym x y).
  destruct (SFcompare_number x y Hx Hy) as [c ->]; simpl.
  destruct c; simpl; congruence.
Qed.

(** *** The tests of [PrimFloat] read on the specification *)

Lemma SFcompare_refl x : number x -> SFcompare x x = Some Eq.
Proof.
  intros Hx; destruct x as [s | s | | s m e]; simpl; try (now elim Hx);
    try reflexivity; try (destruct s; reflexivity).
  rewrite Z.compare_refl, Pcompare_refl; destruct s; reflexivity.
Qed.

Lemma is_nan_number x : is_nan x = false <-> number (Prim2SF x).
Proof.
  unfold is_nan; rewrite eqb_spec; unfold SFeqb, number; split.
  - intros H E; rewrite E in H; discriminate.
  - intros H; rewrite (SFcompare_refl _ H); reflexivity.
Qed.

Lemma is_nan_true x : is_nan x = true <-> Prim2SF x = S754_nan.
Proof.
  split; intros H.
  - destruct (Prim2SF x) eqn:E; try reflexivity;
      assert (N : number (Prim2SF x)) by (rewrite E; discriminate);
      apply is_nan_number in N; congruence.
  - destruct (is_nan x) eqn:E; [reflexivity |].
    apply is_nan_number in E; contradiction.
Qed.

Lemma is_infinity_false x :
  is_infinity x = false -> forall s, Prim2SF x <> S754_infinity s.
Proof.
  unfold is_infinity; rewrite eqb_spec, abs_spec; intros H s E.
  rewrite E in H; discriminate.
Qed.



(** *** Multiplying by [-1.0] negates *)

Lemma digits2_shift52 m :
  Zpos (digits2_pos (4503599627370496 * m)) = Zpos (digits2_pos m) + 52.
Proof. cbn [Pos.mul digits2_pos]. lia. Qed.

Lemma shr_52 m :
  iter_pos shr_1 52 {| shr_m := Zpos (4503599627370496 * m); shr_r := false; shr_s := false |}
  = {| shr_m := Zpos m; shr_r := false; shr_s := false |}.
Proof. reflexivity. Qed.

Lemma binary_round_aux_shift52 sx m e :
  bounded prec emax m e = true ->
  binary_round_aux prec emax sx (Zpos (m * 4503599627370496)) (e + -52) loc_Exact
  = S754_finite sx m e.
Proof.
  unfold bounded, canonical_mantissa; intros H.
  apply andb_prop in H; destruct H as [Hc Hb].
  apply Z.eqb_eq in Hc.
  rewrite Pos.mul_comm.
  unfold binary_round_aux, shr_fexp, Zdigits2.
  rewrite digits2_shift52.
  replace (fexp prec emax (Zpos (digits2_pos m) + 52 + (e + -52)) - (e + -52))
    with 52 by (replace (Zpos (digits2_pos m) + 52 + (e + -52))
                  with (Zpos (digits2_pos m) + e) by lia; rewrite Hc; lia).
  cbn [shr shr_record_of_loc]. rewrite shr_52.
  cbn [shr_m loc_of_shr_record round_nearest_even Zdigits2].
  replace (e + -52 + 52) with e by lia.
  rewrite Hc, Z.sub_diag. cbn [shr shr_record_of_loc shr_m].
  rewrite Hb. reflexivity.
Qed.

Lemma mul_minus_one x : (x * -1)%float = (- x)%float.
Proof.
  apply Prim2SF_inj. rewrite mul_spec, opp_spec.
  change (Prim2SF (-1)) with (S754_finite true 4503599627370496 (-52)).
  pose proof (Prim2SF_valid x) as V.
  destruct (Prim2SF x) as [s | s | | s m e]; cbn [SF64mul SFmul SFopp].
  - destruct s; reflexivity.
  - destruct s; reflexivity.
  - reflexivity.
  - rewrite binary_round_aux_shift52 by exact V. destruct s; reflexivity.
Qed.

End FloatFacts.

Import FloatFacts.

(** ** The percentage *)

(** The two tests of [update_battery] bring the ratio into [0, 100]. *)
Lemma two_tests_clamp r :
  (if (100 <? (if r <? 0 then 0 else r))%float then 100%float
   else if (r <? 0)%float then 0%float else r) = clamp 0 100 r.
Proof.
  unfold clamp; destruct (r <? 0)%float; [| reflexivity].
  change (100 <? 0)%float with false; reflexivity.
Qed.

Lemma percentage_is_clamp pf source :
  let s' := snd (update_battery pf source) in
  battery_percentage s' =
    clamp 0 100 (100 * battery_energy s' / battery_energy_full s').
Proof.
  pose proof (update_battery_fields pf source) as F; cbv zeta in F.
  destruct F as (_ & _ & _ & _ & F & _).
  cbv zeta; rewrite <- two_tests_clamp; exact F.
Qed.

(** A number brought into [0, 100] lies there. *)
Lemma clamp_range r :
  is_nan r = false ->
  (0 <=? clamp 0 100 r)%float = true /\ (clamp 0 100 r <=? 100)%float = true.
Proof.
  intros N; apply is_nan_number in N; unfold clamp.
  destruct (r <? 0)%float eqn:L; [split; reflexivity |].
  destruct (100 <? r)%float eqn:H; [split; reflexivity |].
  rewrite ltb_spec in L, H; rewrite !leb_spec; split.
  - apply SFltb_false_SFleb; [exact N | discriminate | exact L].
  - apply SFltb_false_SFleb; [discriminate | exact N | exact H].
Qed.

(** What is left of a ratio that is NaN or infinite. *)
Lemma clamp_nan r : Prim2SF r = S754_nan -> clamp 0 100 r = r.
Proof.
  intros E; unfold clamp; rewrite !ltb_spec, E; reflexivity.
Qed.

Lemma clamp_infinity s r :
  Prim2SF r = S754_infinity s -> clamp 0 100 r = (if s then 0 else 100)%float.
Proof.
  intros E; unfold clamp; rewrite !ltb_spec, E; destruct s; reflexivity.
Qed.

(** The two tests of [PrimFloat] for what is no finite number, read on the
    specification floats. *)
Lemma is_nan_shape x :
  is_nan x = match Prim2SF x with S754_nan => true | _ => false end.
Proof.
  destruct (is_nan x) eqn:E.
  - apply is_nan_true in E; rewrite E; reflexivity.
  - apply is_nan_number in E; destruct (Prim2SF x); try reflexivity; now elim E.
Qed.





(** ** Battery updates *)

(** The state, with the two tests on the status read as equalities up to
    case. *)
Lemma battery_state_formula pf source :
  let s' := snd (update_battery pf source) in
  let status := g_strstrip (sysfs_get_string pf (native_path source) "status") in
  battery_state s' =
    (if eq_nocase status "charging" then DEVKIT_POWER_STATE_CHARGING
     else if eq_nocase status "discharging" then DEVKIT_POWER_STATE_DISCHARGING
     else if (60 <? battery_percentage s')%float then DEVKIT_POWER_STATE_FULLY_CHARGED
     else DEVKIT_POWER_STATE_EMPTY).
Proof.
  pose proof (update_battery_fields pf source) as F; cbv zeta in F.
  destruct F as (_ & _ & _ & _ & _ & F).
  cbv zeta; rewrite F, !strcasecmp_eq_nocase; reflexivity.
Qed.

(** C1.  The state of a battery follows the status text first and the
    percentage second: Charging when the trimmed status is "charging" up to
    case, else Discharging when it is "discharging" up to case, else
    FullyCharged when the percentage just computed is above 60, else Empty.
    Four readings show the order: "charging" at 10 percent is Charging, no
    status at 75 percent is FullyCharged, no status at exactly 60 percent is
    Empty, "discharging" at 95 percent is Discharging. *)
Theorem battery_state_precedence pf source :
  let s' := snd (update_battery pf source) in
  let status := g_strstrip (sysfs_get_string pf (native_path source) "status") in
  let at_ status energy_now :=
    snd (update_battery (battery_dir status energy_now 100000000 0) source) in
  battery_state s' =
    (if eq_nocase status "charging" then DEVKIT_POWER_STATE_CHARGING
     else if eq_nocase status "discharging" then DEVKIT_POWER_STATE_DISCHARGING
     else if (60 <? battery_percentage s')%float then DEVKIT_POWER_STATE_FULLY_CHARGED
     else DEVKIT_POWER_STATE_EMPTY) /\
  (battery_percentage (at_ "charging" 10000000%float) = 10%float /\
   battery_state (at_ "charging" 10000000%float) = DEVKIT_POWER_STATE_CHARGING) /\
  (battery_percentage (at_ "" 75000000%float) = 75%float /\
   battery_state (at_ "" 75000000%float) = DEVKIT_POWER_STATE_FULLY_CHARGED) /\
  (battery_percentage (at_ "" 60000000%float) = 60%float /\
   battery_state (at_ "" 60000000%float) = DEVKIT_POWER_STATE_EMPTY) /\
  (battery_percentage (at_ "discharging" 95000000%float) = 95%float /\
   battery_state (at_ "discharging" 95000000%float) = DEVKIT_POWER_STATE_DISCHARGING).
Proof.
  cbv zeta; split; [apply battery_state_formula |].
  destruct_source source; vm_compute; repeat split.
Qed.



(** The size of a value is at least zero, and its opposite at most zero,
    exactly when the value is a number. *)
Lemma abs_nonneg_iff x : (0 <=? abs x)%float = negb (is_nan x).
Proof.
  rewrite is_nan_shape, leb_spec, abs_spec.
  destruct (Prim2SF x) as [s | s | | s m e]; reflexivity.
Qed.

Lemma opp_abs_nonpos_iff x : (- abs x <=? 0)%float = negb (is_nan x).
Proof.
  rewrite is_nan_shape, leb_spec, opp_spec, abs_spec.
  destruct (Prim2SF x) as [s | s | | s m e]; reflexivity.
Qed.

Lemma abs_is_nan x : is_nan (abs x) = is_nan x.
Proof.
  rewrite !is_nan_shape, abs_spec.
  destruct (Prim2SF x) as [s | s | | s m e]; reflexivity.
Qed.

Lemma opp_is_nan x : is_nan (- x)%float = is_nan x.
Proof.
  rewrite !is_nan_shape, opp_spec.
  destruct (Prim2SF x) as [s | s | | s m e]; reflexivity.
Qed.

Lemma scaled_number x : is_nan x = false -> is_nan (x / 1000000)%float = false.
Proof.
  intros N; apply is_nan_number; apply is_nan_number in N; rewrite div_spec.
  change (Prim2SF 1000000) with (S754_finite false 8589934592000000 (-33)).
  apply SFdiv_by_finite_number; exact N.
Qed.

Lemma scaled_nan x : is_nan (x / 1000000)%float = is_nan x.
Proof.
  destruct (is_nan x) eqn:N; [| apply scaled_number, N].
  apply is_nan_true in N; apply is_nan_true; rewrite div_spec, N; reflexivity.
Qed.

(** C3, as the code has it.  The rate is the size of
    current_now / 1,000,000, negated exactly when the trimmed status is
    "charging" up to case; "charging" with 2000000 gives -2.0 and
    "discharging" with 2000000 gives 2.0.  The rate is at least zero when not
    charging, and at most zero when charging, exactly when current_now is a
    number: the rate of a current_now that is NaN is NaN. *)
Theorem energy_rate_sign pf source :
  let dir := native_path source in
  let s' := snd (update_battery pf source) in
  let charging := eq_nocase (g_strstrip (sysfs_get_string pf dir "status")) "charging" in
  let size := abs (sysfs_get_double pf dir "current_now" / 1000000)%float in
  let at_ status := snd (update_battery (battery_dir status 0 0 2000000) source) in
  battery_energy_rate s' = (if charging then (- size)%float else size) /\
  (if charging then (battery_energy_rate s' <=? 0)%float
   else (0 <=? battery_energy_rate s')%float)
  = negb (is_nan (sysfs_get_double pf dir "current_now")) /\
  is_nan (battery_energy_rate s') = is_nan (sysfs_get_double pf dir "current_now") /\
  battery_energy_rate (at_ "charging") = (-2)%float /\
  battery_energy_rate (at_ "discharging") = 2%float.
Proof.
  cbv zeta.
  pose proof (update_battery_fields pf source) as F; cbv zeta in F.
  destruct F as (_ & _ & _ & F & _).
  rewrite F, strcasecmp_eq_nocase, mul_minus_one.
  split; [reflexivity | split; [| split]].
  - destruct (eq_nocase _ "charging");
      [rewrite opp_abs_nonpos_iff | rewrite abs_nonneg_iff];
      rewrite scaled_nan; reflexivity.
  - destruct (eq_nocase _ "charging");
      rewrite ?opp_is_nan, abs_is_nan, scaled_nan; reflexivity.
  - destruct_source source; vm_compute; split; reflexivity.
Qed.

(** C3 fails as stated: a battery that is discharging and whose current_now
    is not a number has a rate that is NaN, which is not at least zero. *)
Lemma energy_rate_sign_counterexample :
  let s' := snd (update_battery (battery_dir "discharging" 50000000 100000000 nan)
                                (new_instance BAT0 DEVKIT_POWER_TYPE_BATTERY)) in
  eq_nocase (g_strstrip "discharging") "charging" = false /\
  battery_state s' = DEVKIT_POWER_STATE_DISCHARGING /\
  is_nan (battery_energy_rate s') = true /\
  (0 <=? battery_energy_rate s')%float = false.
Proof. vm_compute; repeat split. Qed.

(** A quotient by zero is NaN for a numerator that is zero or NaN and an
    infinity otherwise. *)
Lemma div_by_zero_shape n z :
  (z =? 0)%float = true ->
  (is_nan n || is_zero n = true /\ Prim2SF (n / z) = S754_nan) \/
  (is_nan n || is_zero n = false /\ exists s, Prim2SF (n / z) = S754_infinity s).
Proof.
  unfold is_nan, is_zero; rewrite !eqb_spec, div_spec.
  change (Prim2SF 0) with (S754_zero false).
  destruct (Prim2SF z) as [sz | [] | | [] mz ez]; try discriminate; intros _.
  destruct (Prim2SF n) as [s | [] | | [] m e]; cbn -[Z.compare Pos.compare_cont];
    try (left; split; reflexivity);
    rewrite ?Z.compare_refl, ?Pcompare_refl;
    right; split; eauto.
Qed.

(** ** Object paths *)

Section Scans.

Variable p : ascii -> bool.

Lemma dropwhile_none l :
  forallb (fun c => negb (p c)) l = true -> dropwhile p l = l.
Proof.
  destruct l as [| c r]; simpl; [reflexivity |].
  destruct (p c); simpl; [discriminate | reflexivity].
Qed.

Lemma takewhile_none l :
  forallb (fun c => negb (p c)) l = true -> takewhile p l = [].
Proof.
  destruct l as [| c r]; simpl; [reflexivity |].
  destruct (p c); simpl; [discriminate | reflexivity].
Qed.

Lemma takewhile_all l : forallb p l = true -> takewhile p l = l.
Proof.
  induction l as [| c r IH]; simpl; [reflexivity |].
  destruct (p c); simpl; [intros H; rewrite IH; auto | discriminate].
Qed.

Lemma takewhile_forallb l : forallb p (takewhile p l) = true.
Proof.
  induction l as [| c r IH]; simpl; [reflexivity |].
  destruct (p c) eqn:E; simpl; [rewrite E; exact IH | reflexivity].
Qed.

Lemma dropwhile_all l : forallb p l = true -> dropwhile p l = [].
Proof.
  induction l as [| c r IH]; simpl; [reflexivity |].
  destruct (p c); simpl; [exact IH | discriminate].
Qed.

Lemma dropwhile_app_all a l :
  forallb p a = true -> dropwhile p (a ++ l) = dropwhile p l.
Proof.
  induction a as [| x a IH]; simpl; [reflexivity |].
  destruct (p x); simpl; [exact IH | discriminate].
Qed.

Lemma takewhile_app_stop a x l :
  forallb p a = true -> p x = false -> takewhile p (a ++ x :: l) = a.
Proof.
  intros A X; induction a as [| y a IH]; simpl in *; [now rewrite X |].
  destruct (p y); simpl in *; [now rewrite IH | discriminate].
Qed.

Lemma dropwhile_head l c r : dropwhile p l = c :: r -> p c = false.
Proof.
  induction l as [| c' r' IH]; simpl; [discriminate |].
  destruct (p c') eqn:E; [exact IH | congruence].
Qed.

Lemma dropwhile_some l :
  existsb (fun c => negb (p c)) l = true -> dropwhile p l <> [].
Proof.
  induction l as [| c r IH]; simpl; [discriminate |].
  destruct (p c); simpl; [exact IH | discriminate].
Qed.

End Scans.

Lemma forallb_rev {A} (f : A -> bool) l : forallb f (rev l) = forallb f l.
Proof.
  induction l as [| c r IH]; simpl; [reflexivity |].
  rewrite forallb_app, IH; simpl; rewrite andb_true_r; apply andb_comm.
Qed.

Lemma existsb_rev {A} (f : A -> bool) l : existsb f (rev l) = existsb f l.
Proof.
  induction l as [| c r IH]; simpl; [reflexivity |].
  rewrite existsb_app, IH; simpl; rewrite orb_false_r; apply orb_comm.
Qed.

Lemma names_a_device_existsb s :
  names_a_device s = existsb not_separator (list_ascii_of_string s).
Proof. induction s as [| c r IH]; simpl; [reflexivity | now rewrite IH]. Qed.

Lemma string_map_of_list f l :
  string_map f (string_of_list_ascii l) = string_of_list_ascii (map f l).
Proof. induction l as [| c r IH]; simpl; [reflexivity | now rewrite IH]. Qed.

Lemma string_of_list_app l1 l2 :
  string_of_list_ascii (l1 ++ l2) = string_of_list_ascii l1 ++ string_of_list_ascii l2.
Proof. induction l1 as [| c r IH]; simpl; [reflexivity | now rewrite IH]. Qed.

Lemma string_mem_app c s1 s2 :
  string_mem c (s1 ++ s2) = string_mem c s1 || string_mem c s2.
Proof.
  induction s1 as [| c1 r IH]; simpl; [reflexivity |].
  now rewrite IH, orb_assoc.
Qed.

(** The loop of [compute_object_path_from_basename] leaves no dash. *)
Lemma no_dash_after_loop s : string_mem "-" (string_map dash_to_underscore s) = false.
Proof.
  induction s as [| c r IH]; cbn [string_map string_mem]; [reflexivity |].
  rewrite IH, orb_false_r; unfold dash_to_underscore.
  destruct (Ascii.eqb_spec c "-") as [-> | N]; [reflexivity |].
  apply Ascii.eqb_neq; congruence.
Qed.

Lemma segment_after_loop b : segment b -> segment (map dash_to_underscore b).
Proof.
  intros [N F]; split; [destruct b; [now elim N | discriminate] |].
  clear N; induction b as [| c r IH]; simpl in *; [reflexivity |].
  apply andb_prop in F; destruct F as [Fc Fr]; rewrite (IH Fr), andb_true_r.
  unfold dash_to_underscore; destruct (Ascii.eqb c "-"); [reflexivity | exact Fc].
Qed.

Lemma string_of_segment b :
  segment b -> exists c r, string_of_list_ascii b = String c r.
Proof. intros [N _]; destruct b as [| c r]; [now elim N | simpl; eauto]. Qed.

(** The base name of a path that names a device is its last segment. *)
Lemma basename_segment path :
  names_a_device path = true ->
  exists b, segment b /\ g_path_get_basename path = string_of_list_ascii b.
Proof.
  intros H; rewrite names_a_device_existsb in H.
  unfold g_path_get_basename.
  destruct path as [| c r]; [discriminate |].
  set (l := list_ascii_of_string (String c r)) in *.
  rewrite <- existsb_rev in H.
  pose proof (dropwhile_some is_dir_separator (rev l) H) as N.
  destruct (dropwhile is_dir_separator (rev l)) as [| c' r'] eqn:E; [now elim N |].
  exists (rev (takewhile not_separator (c' :: r'))); split; [split |].
  - apply dropwhile_head in E; simpl; unfold not_separator at 1; rewrite E; simpl.
    intros A; apply app_eq_nil in A; destruct A; discriminate.
  - rewrite forallb_rev; apply takewhile_forallb.
  - reflexivity.
Qed.

(** The base name of a segment is the segment. *)
Lemma basename_of_segment b :
  segment b -> g_path_get_basename (string_of_list_ascii b) = string_of_list_ascii b.
Proof.
  intros S; destruct (string_of_segment b S) as (c & r & E).
  destruct S as [N F]; unfold g_path_get_basename; rewrite E, <- E.
  rewrite list_ascii_of_string_of_list_ascii.
  assert (F' : forallb (fun c => negb (is_dir_separator c)) (rev b) = true)
    by (rewrite forallb_rev; exact F).
  rewrite (dropwhile_none _ _ F').
  destruct (rev b) as [| c' r'] eqn:R.
  - apply (f_equal (@rev ascii)) in R; rewrite rev_involutive in R; now elim N.
  - rewrite <- R, takewhile_all by (rewrite forallb_rev; exact F).
    now rewrite rev_involutive.
Qed.

(** Under ["/sources/"] a segment is appended as it is. *)
Lemma build_under_sources b :
  segment b ->
  g_build_filename ["/sources/"; string_of_list_ascii b]
  = "/sources/" ++ string_of_list_ascii b.
Proof.
  intros S; destruct (string_of_segment b S) as (c & r & E).
  destruct S as [N F]; unfold g_build_filename; cbn [fold_left].
  change (build_element build_start "/sources/")
    with {| result := list_ascii_of_string "/sources"; is_first := false;
            have_leading := true; single_element := None;
            last_trailing := Some ["/"%char] |}.
  unfold build_element; rewrite E, <- E.
  rewrite list_ascii_of_string_of_list_ascii.
  assert (F' : forallb (fun c => negb (is_dir_separator c)) (rev b) = true)
    by (rewrite forallb_rev; exact F).
  rewrite (dropwhile_none _ b F), (dropwhile_none _ _ F'), (takewhile_none _ _ F').
  rewrite rev_involutive; cbn [have_leading is_first result single_element rev].
  destruct b as [| c' r']; [now elim N |].
  cbn [single_element result last_trailing].
  rewrite app_nil_r, string_of_list_app; reflexivity.
Qed.

(** A path that names no device is empty or made of separators. *)
Lemma basename_without_name path :
  names_a_device path = false -> path = "" \/ g_path_get_basename path = "/".
Proof.
  intros H; rewrite names_a_device_existsb in H.
  destruct path as [| c r]; [left; reflexivity | right].
  unfold g_path_get_basename.
  set (l := list_ascii_of_string (String c r)) in *.
  rewrite dropwhile_all; [reflexivity |].
  rewrite forallb_rev; clearbody l; induction l as [| x l IH]; [reflexivity |].
  simpl in *; apply orb_false_elim in H; destruct H as [Hx Hl].
  rewrite (IH Hl), andb_true_r; unfold not_separator in Hx.
  now destruct (is_dir_separator x).
Qed.

(** No object path has a dash, for any native path at all. *)
Lemma object_path_without_dash path :
  string_mem "-" (compute_object_path path) = false.
Proof.
  destruct (names_a_device path) eqn:H.
  - destruct (basename_segment path H) as (b & S & E).
    unfold compute_object_path, compute_object_path_from_basename.
    rewrite E, (basename_of_segment b S), string_map_of_list.
    rewrite (build_under_sources _ (segment_after_loop b S)), string_mem_app.
    rewrite <- string_map_of_list, no_dash_after_loop; reflexivity.
  - unfold compute_object_path.
    destruct (basename_without_name path H) as [-> | ->]; reflexivity.
Qed.

(** C4.  The object path of a native path that names a device is
    "/sources/" followed by the last segment of the native path with every
    '-' turned into '_'.  It has no '-', and two native paths with the same
    last segment get the same object path. *)
Theorem object_path_derivation native_path :
  names_a_device native_path = true ->
  compute_object_path native_path
  = "/sources/" ++ string_map dash_to_underscore (g_path_get_basename native_path) /\
  string_mem "-" (compute_object_path native_path) = false /\
  forall other,
    g_path_get_basename other = g_path_get_basename native_path ->
    compute_object_path other = compute_object_path native_path.
Proof.
  intros H; split; [| split].
  - destruct (basename_segment native_path H) as (b & S & E).
    unfold compute_object_path, compute_object_path_from_basename.
    rewrite E, (basename_of_segment b S), string_map_of_list.
    apply build_under_sources, segment_after_loop, S.
  - apply object_path_without_dash.
  - intros other E; unfold compute_object_path; now rewrite E.
Qed.

(** The last segment of [dir/name] followed by separators is [name]. *)
Lemma basename_of_join dir name trail :
  segment name -> forallb is_dir_separator trail = true ->
  g_path_get_basename (string_of_list_ascii (dir ++ "/"%char :: name ++ trail)%list)
  = string_of_list_ascii name.
Proof.
  intros [N F] T; unfold g_path_get_basename.
  destruct (string_of_list_ascii _) as [| c r] eqn:E;
    [destruct dir; discriminate | rewrite <- E; clear E].
  rewrite list_ascii_of_string_of_list_ascii.
  change ("/"%char :: name ++ trail)%list with (["/"%char] ++ name ++ trail)%list.
  rewrite !rev_app_distr, <- !app_assoc; cbn [rev app].
  rewrite dropwhile_app_all by (rewrite forallb_rev; exact T).
  assert (F' : forallb not_separator (rev name) = true)
    by (rewrite forallb_rev; exact F).
  destruct (rev name) as [| x l] eqn:R.
  { apply (f_equal (@rev ascii)) in R; rewrite rev_involutive in R; now elim N. }
  assert (Fx : is_dir_separator x = false).
  { cbn [forallb] in F'; apply andb_prop in F'; destruct F' as [Fx _].
    unfold not_separator in Fx; now destruct (is_dir_separator x). }
  rewrite <- app_comm_cons; cbn [dropwhile]; rewrite Fx.
  rewrite app_comm_cons, takewhile_app_stop
    by (exact F' || (unfold not_separator; reflexivity)).
  rewrite <- R, rev_involutive; reflexivity.
Qed.

Example basename_of_join_BAT0 :
  g_path_get_basename "/sys/class/power_supply/BAT0/" = "BAT0".
Proof.
  apply (basename_of_join (list_ascii_of_string "/sys/class/power_supply")
           (list_ascii_of_string "BAT0") ["/"%char]); [split; [discriminate |] |];
    reflexivity.
Qed.

(** ** One update *)

Ltac world_fields :=
  cbn [now timeouts next_source_id system_bus_up bus_objects calls
       set_timeouts set_next_source_id set_bus_objects set_now call
       g_source_remove g_timeout_add_seconds g_get_current_time emit_changed
       timeout_id timeout_interval timeout_due fst snd] in *.

Lemma update_battery_pair pf source :
  update_battery pf source = (true, snd (update_battery pf source)).
Proof.
  pose proof (update_battery_frame pf source) as F; cbv zeta in F.
  destruct F as [F _]; destruct (update_battery pf source); simpl in *; congruence.
Qed.

(** What [update] does to the source and to the world. *)
Lemma update_effect pf source w :
  let r := update pf source w in
  let s' := snd (fst r) in
  let w' := snd r in
  let armed := {| timeout_id := next_source_id w; timeout_interval := 30;
                  timeout_due := now w + 30 |} in
  fst (fst r) = true /\
  calls w' =
    (calls w
     ++ (if 0 <? poll_timer_id source then [G_SOURCE_REMOVE (poll_timer_id source)] else [])
     ++ G_GET_CURRENT_TIME
     :: match type source with
        | DEVKIT_POWER_TYPE_BATTERY => [G_TIMEOUT_ADD_SECONDS 30 (next_source_id w)]
        | DEVKIT_POWER_TYPE_LINE_POWER => []
        end)%list /\
  timeouts w' =
    match type source with
    | DEVKIT_POWER_TYPE_BATTERY => armed :: after_disarm source w
    | DEVKIT_POWER_TYPE_LINE_POWER => after_disarm source w
    end /\
  poll_timer_id s' =
    match type source with
    | DEVKIT_POWER_TYPE_BATTERY => next_source_id w
    | DEVKIT_POWER_TYPE_LINE_POWER => if 0 <? poll_timer_id source then 0 else poll_timer_id source
    end /\
  next_source_id w' =
    match type source with
    | DEVKIT_POWER_TYPE_BATTERY => next_source_id w + 1
    | DEVKIT_POWER_TYPE_LINE_POWER => next_source_id w
    end /\
  update_time s' = now w /\ type s' = type source /\
  native_path s' = native_path source /\ object_path s' = object_path source /\
  d s' = d source /\
  (vendor s' <> None /\ model s' <> None /\ serial s' <> None \/ vendor source <> None) /\
  now w' = now w /\ bus_objects w' = bus_objects w /\ system_bus_up w' = system_bus_up w.
Proof.
  cbv zeta; unfold update, after_disarm, update_line_power.
  destruct_source source; source_fields.
  destruct (0 <? pt) eqn:P; destruct ve as [v |]; destruct ty; source_fields;
    world_fields;
    try (lazymatch goal with
         | |- context [update_battery ?pf ?s] =>
             rewrite (update_battery_pair pf s);
             pose proof (update_battery_frame pf s) as F; cbv zeta in F;
             destruct (snd (update_battery pf s)); source_fields; world_fields
         end);
    repeat split; try tauto; try (rewrite <- !app_assoc; reflexivity);
    try (right; discriminate); try (left; repeat split; discriminate);
    left; repeat split; intuition congruence.
Qed.

Ltac use_update pf s w :=
  let U := fresh "U" in
  pose proof (update_effect pf s w) as U; cbv zeta in U;
  destruct (update pf s w) as [[? ?] ?]; cbn [fst snd] in U;
  destruct U as (? & ? & ? & ? & ? & ? & ? & ? & ? & ? & ? & ? & ? & ?).

(** ** The poll timer *)

Lemma after_disarm_invariant source w :
  timer_invariant (source, w) -> after_disarm source w = [].
Proof.
  unfold timer_invariant, after_disarm.
  intros [_ [[-> ->] | [P [_ ->]]]]; [reflexivity |].
  destruct (Z.ltb_spec 0 (poll_timer_id source)); [| lia].
  cbn; rewrite Z.eqb_refl; reflexivity.
Qed.

Lemma update_invariant pf source w :
  timer_invariant (source, w) ->
  timer_invariant (snd (fst (update pf source w)), snd (update pf source w)).
Proof.
  intros I; pose proof (after_disarm_invariant source w I) as A.
  assert (N : 0 < next_source_id w) by (destruct I; assumption).
  assert (Z : poll_timer_id source = 0 \/ 0 < poll_timer_id source)
    by (destruct I as [_ [[? _] | [? _]]]; lia).
  use_update pf source w; cbn [fst snd]; unfold timer_invariant.
  rewrite A in *.
  destruct (type source) eqn:Ty.
  - split; [lia | left; split; [| assumption]].
    destruct (0 <? poll_timer_id source) eqn:P; [assumption | lia].
  - split; [lia | right; repeat split; try lia; try congruence].
Qed.

Lemma changed_invariant pf dev synthesized source w :
  timer_invariant (source, w) ->
  let r := devkit_power_source_changed pf dev synthesized source w in
  timer_invariant (snd (fst r), snd r).
Proof.
  intros I; cbv zeta; unfold devkit_power_source_changed.
  assert (I' : timer_invariant (set_d dev source, w))
    by (destruct_source source; exact I).
  pose proof (update_invariant pf _ _ I') as U.
  destruct (update pf (set_d dev source) w) as [[keep s'] w'].
  destruct keep; exact U.
Qed.

Lemma refresh_invariant pf context source w :
  timer_invariant (source, w) ->
  let r := devkit_power_source_refresh pf context source w in
  timer_invariant (snd (fst r), snd r).
Proof.
  intros I; cbv zeta; unfold devkit_power_source_refresh.
  pose proof (update_invariant pf _ _ I) as U.
  destruct (update pf source w) as [[keep s'] w']; exact U.
Qed.

(** What the main loop and the source are left with once the timeout [t]
    of the source has run. *)
Lemma dispatch_effect pf t source w :
  timer_invariant (source, w) -> In t (timeouts w) ->
  let r := dispatch_timeout pf t source w in
  let armed := {| timeout_id := next_source_id w; timeout_interval := 30;
                  timeout_due := now w + 30 |} in
  timeouts (snd r) = [armed] /\
  poll_timer_id (fst r) = next_source_id w /\
  next_source_id (snd r) = next_source_id w + 1 /\
  update_time (fst r) = now w /\ type (fst r) = type source /\
  now (snd r) = now w /\
  calls (snd r) =
    (calls w ++
     [G_WARNING ("No updates on source " ++ native_path source
                 ++ " for 30 seconds; forcing update");
      G_GET_CURRENT_TIME;
      G_TIMEOUT_ADD_SECONDS 30 (next_source_id w);
      G_PRINT ("emitting changed on " ++ native_path source ++ newline);
      SIGNAL_DEVICE_CHANGED (object_path source);
      SIGNAL_CHANGED])%list.
Proof.
  unfold timer_invariant; intros [N [[_ E] | [P [Ty E]]]] H; rewrite E in H;
    [elim H | destruct H as [<- | []]].
  cbv zeta; unfold dispatch_timeout, _poll_battery.
  set (w1 := call _ w); set (s1 := set_poll_timer_id 0 source).
  assert (Ty1 : type s1 = DEVKIT_POWER_TYPE_BATTERY)
    by (subst s1; destruct_source source; exact Ty).
  assert (P1 : poll_timer_id s1 = 0) by (subst s1; destruct_source source; reflexivity).
  assert (F1 : native_path s1 = native_path source /\ object_path s1 = object_path source)
    by (subst s1; destruct_source source; split; reflexivity).
  use_update pf s1 w1; unfold after_disarm in *; rewrite Ty1, P1 in *.
  cbn [Z.ltb Z.compare] in *.
  subst w1; world_fields; rewrite E in *.
  match goal with H : timeouts _ = _ |- _ => rewrite H end.
  cbn [filter timeout_id]; rewrite Z.eqb_refl.
  replace (next_source_id w =? poll_timer_id source) with false
    by (symmetry; apply Z.eqb_neq; lia).
  cbn [negb]; destruct F1 as [F1 F2].
  repeat split; try congruence.
  match goal with H : calls _ = _ |- _ => rewrite H end.
  rewrite <- !app_assoc; cbn [app]; congruence.
Qed.

Lemma dispatch_invariant pf t source w :
  timer_invariant (source, w) -> In t (timeouts w) ->
  timer_invariant (dispatch_timeout pf t source w).
Proof.
  intros I H; pose proof (dispatch_effect pf t source w I H) as D; cbv zeta in D.
  assert (N : 0 < next_source_id w) by (destruct I; assumption).
  assert (Ty : type source = DEVKIT_POWER_TYPE_BATTERY).
  { destruct I as [_ [[_ E] | [_ [Ty _]]]]; [rewrite E in H; elim H | exact Ty]. }
  destruct (dispatch_timeout pf t source w) as [s' w']; cbn [fst snd] in D.
  destruct D as (T & P & Nx & Ut & Ty' & _).
  unfold timer_invariant; split; [lia | right].
  rewrite T, P, Nx, Ut; repeat split; try lia; congruence.
Qed.

Lemma new_invariant pf dev w source w' :
  timeouts w = [] -> 0 < next_source_id w ->
  devkit_power_source_new pf dev w = (Some source, w') ->
  timer_invariant (source, w').
Proof.
  intros T N; unfold devkit_power_source_new.
  set (s0 := new_instance dev _).
  assert (I0 : timer_invariant (s0, w))
    by (split; [exact N | left; split; [reflexivity | exact T]]).
  pose proof (update_invariant pf s0 w I0) as U.
  destruct (update pf s0 w) as [[ok s1] w1]; cbn [fst snd] in U.
  destruct ok; cbn [negb]; [| discriminate].
  unfold register_power_source.
  destruct (system_bus_up w1); cbn [negb]; [| discriminate].
  intros E; injection E as <- <-.
  destruct_source s1; exact U.
Qed.

(** Every state a source goes through has the poll timer as the one
    timeout of the main loop. *)
Lemma reachable_invariant st : reachable st -> timer_invariant st.
Proof.
  induction 1 as [pf dev w source w' T N E | st i st' R IH S].
  - exact (new_invariant pf dev w source w' T N E).
  - destruct S as [pf dev syn source w keep source' w' E
                  | pf context source w ret source' w' E
                  | pf t source w source' w' H D E
                  | seconds source w P].
    + pose proof (changed_invariant pf dev syn source w IH) as C.
      cbv zeta in C; rewrite E in C; exact C.
    + pose proof (refresh_invariant pf context source w IH) as C.
      cbv zeta in C; rewrite E in C; exact C.
    + rewrite <- E; apply dispatch_invariant; assumption.
    + exact IH.
Qed.

(** ** The calls of each entry point *)

Lemma calls_since_app w w' added :
  calls w' = (calls w ++ added)%list -> calls_since w w' = added.
Proof.
  unfold calls_since; intros ->.
  induction (calls w) as [| c l IH]; [reflexivity | exact IH].
Qed.

Lemma update_calls_counts source w :
  count_calls is_update_call (update_calls source w) = 1%nat /\
  count_calls is_changed_signal (update_calls source w) = 0%nat /\
  count_calls is_daemon_signal (update_calls source w) = 0%nat.
Proof.
  unfold update_calls; destruct (0 <? poll_timer_id source), (type source);
    repeat split.
Qed.

Lemma count_calls_app p a b :
  count_calls p (a ++ b) = (count_calls p a + count_calls p b)%nat.
Proof. unfold count_calls; rewrite filter_app; apply length_app. Qed.

Lemma update_calls_since pf source w :
  calls_since w (snd (update pf source w)) = update_calls source w.
Proof.
  apply calls_since_app; pose proof (update_effect pf source w) as U.
  cbv zeta in U; apply U.
Qed.

Lemma set_d_fields dev source :
  poll_timer_id (set_d dev source) = poll_timer_id source /\
  type (set_d dev source) = type source /\
  native_path (set_d dev source) = native_path source /\
  object_path (set_d dev source) = object_path source.
Proof. destruct_source source; repeat split. Qed.

(** A change of the device: one update, then the two signals. *)
Lemma changed_effect pf dev synthesized source w :
  let r := devkit_power_source_changed pf dev synthesized source w in
  let u := update pf (set_d dev source) w in
  fst (fst r) = true /\ snd (fst r) = snd (fst u) /\
  timeouts (snd r) = timeouts (snd u) /\
  calls (snd r) =
    (calls w ++ update_calls source w
     ++ [G_PRINT ("emitting changed on " ++ native_path source ++ newline);
         SIGNAL_DEVICE_CHANGED (object_path source);
         SIGNAL_CHANGED])%list.
Proof.
  cbv zeta; unfold devkit_power_source_changed, update_calls.
  destruct (set_d_fields dev source) as (P & Ty & Np & Op).
  use_update pf (set_d dev source) w; subst; cbn [negb fst snd].
  world_fields; repeat split.
  rewrite P, Ty in *.
  match goal with H : calls _ = _ |- _ => rewrite H end.
  rewrite <- !app_assoc; cbn [app]; congruence.
Qed.

(** [Refresh]: one update, then the reply. *)
Lemma refresh_effect pf context source w :
  let r := devkit_power_source_refresh pf context source w in
  let u := update pf source w in
  fst (fst r) = true /\ snd (fst r) = snd (fst u) /\
  timeouts (snd r) = timeouts (snd u) /\
  calls (snd r) =
    (calls w ++ update_calls source w ++ [DBUS_METHOD_RETURN context])%list.
Proof.
  cbv zeta; unfold devkit_power_source_refresh, update_calls.
  use_update pf source w; cbn [fst snd]; world_fields; repeat split.
  match goal with H : calls _ = _ |- _ => rewrite H end.
  rewrite <- !app_assoc; reflexivity.
Qed.

(** [_poll_battery]: the warning, one update, then the two signals. *)
Lemma poll_effect pf source w :
  let r := _poll_battery pf source w in
  fst (fst r) = false /\
  calls (snd r) =
    (calls w ++
     G_WARNING ("No updates on source " ++ native_path source
                ++ " for 30 seconds; forcing update")
     :: G_GET_CURRENT_TIME
     :: match type source with
        | DEVKIT_POWER_TYPE_BATTERY => [G_TIMEOUT_ADD_SECONDS 30 (next_source_id w)]
        | DEVKIT_POWER_TYPE_LINE_POWER => []
        end
     ++ [G_PRINT ("emitting changed on " ++ native_path source ++ newline);
         SIGNAL_DEVICE_CHANGED (object_path source);
         SIGNAL_CHANGED])%list.
Proof.
  cbv zeta; unfold _poll_battery.
  set (w1 := call _ w); set (s1 := set_poll_timer_id 0 source).
  assert (F : poll_timer_id s1 = 0 /\ type s1 = type source /\
              native_path s1 = native_path source /\
              object_path s1 = object_path source)
    by (subst s1; destruct_source source; repeat split).
  destruct F as (P & Ty & Np & Op).
  use_update pf s1 w1; cbn [fst snd]; subst w1; world_fields.
  split; [reflexivity |].
  rewrite P, Ty in *; cbn [Z.ltb Z.compare app] in *.
  match goal with H : calls _ = _ |- _ => rewrite H end.
  rewrite <- !app_assoc; cbn [app]; congruence.
Qed.

(** ** Updates report success *)

(** C10.  Both branches of an update return TRUE whatever the attributes
    hold, hence so does [update]; a change of the device therefore always
    answers "keep", and it sends the changed signal once. *)
Theorem update_always_succeeds pf source w :
  fst (update_line_power pf source) = true /\
  fst (update_battery pf source) = true /\
  fst (fst (update pf source w)) = true /\
  forall dev synthesized,
    let r := devkit_power_source_changed pf dev synthesized source w in
    fst (fst r) = true /\
    count_calls is_changed_signal (calls_since w (snd r)) = 1%nat.
Proof.
  split; [reflexivity | split; [apply update_battery_frame | split]].
  - apply update_effect.
  - intros dev synthesized; cbv zeta.
    pose proof (changed_effect pf dev synthesized source w) as C; cbv zeta in C.
    destruct C as (K & _ & _ & C); split; [exact K |].
    rewrite (calls_since_app _ _ _ C), count_calls_app.
    destruct (update_calls_counts source w) as (_ & -> & _); reflexivity.
Qed.

(** ** Refresh *)

(** C9.  [Refresh] runs one update and then replies to the caller, and
    returns TRUE; it sends neither the changed signal nor the daemon's
    device-changed signal.  A change of the device and a poll each send the
    changed signal once. *)
Theorem refresh_does_not_notify pf context source w :
  let r := devkit_power_source_refresh pf context source w in
  fst (fst r) = true /\
  snd (fst r) = snd (fst (update pf source w)) /\
  calls_since w (snd r) =
    (calls_since w (snd (update pf source w)) ++ [DBUS_METHOD_RETURN context])%list /\
  count_calls is_update_call (calls_since w (snd r)) = 1%nat /\
  count_calls is_changed_signal (calls_since w (snd r)) = 0%nat /\
  count_calls is_daemon_signal (calls_since w (snd r)) = 0%nat /\
  (forall dev synthesized,
     count_calls is_changed_signal
       (calls_since w (snd (devkit_power_source_changed pf dev synthesized source w)))
     = 1%nat) /\
  count_calls is_changed_signal (calls_since w (snd (_poll_battery pf source w))) = 1%nat.
Proof.
  cbv zeta.
  pose proof (refresh_effect pf context source w) as R; cbv zeta in R.
  destruct R as (K & S & _ & C).
  destruct (update_calls_counts source w) as (U1 & U2 & U3).
  rewrite (calls_since_app _ _ _ C), update_calls_since, !count_calls_app, U1, U2, U3.
  repeat split; try assumption.
  - intros dev synthesized.
    pose proof (changed_effect pf dev synthesized source w) as D; cbv zeta in D.
    destruct D as (_ & _ & _ & D).
    rewrite (calls_since_app _ _ _ D), count_calls_app, U2; reflexivity.
  - pose proof (poll_effect pf source w) as P; cbv zeta in P.
    destruct P as (_ & P); rewrite (calls_since_app _ _ _ P).
    destruct (type source); reflexivity.
Qed.

(** ** The poll timer *)

(** C7.  At every point of its life a source has at most one timeout in
    the main loop, the one [poll_timer_id] names, of 30 seconds.  An update
    first removes that timeout, before any other call, and leaves exactly
    one new timeout of 30 seconds for a battery and none for line power. *)
Theorem one_poll_timer source w :
  reachable (source, w) ->
  (List.length (timeouts w) <= 1)%nat /\
  (forall t, In t (timeouts w) ->
             timeout_id t = poll_timer_id source /\ timeout_interval t = 30) /\
  forall pf,
    let r := update pf source w in
    calls_since w (snd r) =
      ((if 0 <? poll_timer_id source
        then [G_SOURCE_REMOVE (poll_timer_id source)] else [])
       ++ G_GET_CURRENT_TIME
       :: match type source with
          | DEVKIT_POWER_TYPE_BATTERY => [G_TIMEOUT_ADD_SECONDS 30 (next_source_id w)]
          | DEVKIT_POWER_TYPE_LINE_POWER => []
          end)%list /\
    timeouts (snd r) =
      match type source with
      | DEVKIT_POWER_TYPE_BATTERY =>
          [{| timeout_id := next_source_id w; timeout_interval := 30;
              timeout_due := now w + 30 |}]
      | DEVKIT_POWER_TYPE_LINE_POWER => []
      end.
Proof.
  intros R; apply reachable_invariant in R.
  pose proof (after_disarm_invariant source w R) as A.
  split; [| split].
  - destruct R as [_ [[_ ->] | [_ [_ ->]]]]; simpl; lia.
  - intros t H; destruct R as [_ [[_ E] | [_ [_ E]]]]; rewrite E in H;
      [elim H | destruct H as [<- | []]; split; reflexivity].
  - intros pf; cbv zeta; split; [apply update_calls_since |].
    pose proof (update_effect pf source w) as U; cbv zeta in U.
    destruct U as (_ & _ & T & _); rewrite T, A; reflexivity.
Qed.

(** C8.  The timeout of a source is due thirty seconds after its last
    update.  When the main loop runs it, that makes one update, one changed
    signal and one device-changed signal, and the timeout is gone.  When a
    change of the device comes first, the update it makes removes the
    timeout, which can then no longer run, and every timeout left is due
    thirty seconds from then. *)
Theorem poll_fires_once source w t :
  reachable (source, w) -> In t (timeouts w) ->
  timeout_due t = update_time source + 30 /\
  (forall pf,
     let r := dispatch_timeout pf t source w in
     count_calls is_update_call (calls_since w (snd r)) = 1%nat /\
     count_calls is_changed_signal (calls_since w (snd r)) = 1%nat /\
     count_calls is_daemon_signal (calls_since w (snd r)) = 1%nat /\
     ~ In t (timeouts (snd r))) /\
  (forall pf dev synthesized,
     let r := devkit_power_source_changed pf dev synthesized source w in
     In (G_SOURCE_REMOVE (timeout_id t)) (calls_since w (snd r)) /\
     ~ In t (timeouts (snd r)) /\
     (forall pf' st', ~ step (snd (fst r), snd r) (TIMEOUT pf' t) st') /\
     (forall t', In t' (timeouts (snd r)) -> timeout_due t' = now w + 30) /\
     count_calls is_update_call (calls_since w (snd r)) = 1%nat /\
     count_calls is_changed_signal (calls_since w (snd r)) = 1%nat).
Proof.
  intros R H; apply reachable_invariant in R.
  assert (K : 0 < poll_timer_id source < next_source_id w /\
              type source = DEVKIT_POWER_TYPE_BATTERY /\
              t = {| timeout_id := poll_timer_id source; timeout_interval := 30;
                     timeout_due := update_time source + 30 |}).
  { destruct R as [_ [[_ E] | [P [Ty E]]]]; rewrite E in H;
      [elim H | destruct H as [<- | []]; auto]. }
  destruct K as (P & Ty & Et).
  assert (Fresh : forall x, ~ In t [{| timeout_id := next_source_id w;
                                       timeout_interval := 30; timeout_due := x |}]).
  { intros x [E | []]; rewrite Et in E; injection E; lia. }
  split; [rewrite Et; reflexivity | split].
  - intros pf; cbv zeta.
    pose proof (dispatch_effect pf t source w R H) as D; cbv zeta in D.
    destruct D as (T & _ & _ & _ & _ & _ & C).
    rewrite (calls_since_app _ _ _ C), T; repeat split; apply Fresh.
  - intros pf dev synthesized; cbv zeta.
    pose proof (changed_effect pf dev synthesized source w) as C; cbv zeta in C.
    destruct C as (_ & _ & T & C).
    pose proof (update_effect pf (set_d dev source) w) as U; cbv zeta in U.
    destruct U as (_ & _ & T' & _).
    destruct (set_d_fields dev source) as (Pd & Tyd & _).
    assert (A : after_disarm (set_d dev source) w = []).
    { apply after_disarm_invariant. destruct_source source; exact R. }
    rewrite Tyd, Ty, A in T'; rewrite T' in T.
    destruct (update_calls_counts source w) as (U1 & U2 & _).
    rewrite (calls_since_app _ _ _ C), T, !count_calls_app, U1, U2.
    assert (Gone : forall pf' st',
               ~ step (snd (fst (devkit_power_source_changed pf dev synthesized source w)),
                       snd (devkit_power_source_changed pf dev synthesized source w))
                      (TIMEOUT pf' t) st').
    { intros pf' st' S; inversion S as [| | ? ? ? ? ? ? I _ _ |].
      rewrite T in I; exact (Fresh _ I). }
    repeat split; try exact Gone; try apply Fresh.
    + unfold update_calls; rewrite Et; cbn [timeout_id].
      destruct (Z.ltb_spec 0 (poll_timer_id source)); [| lia].
      left; reflexivity.
    + intros t' [<- | []]; reflexivity.
Qed.

(** ** A capacity of zero *)

(** C6, as the code has it.  With a capacity of zero the update still
    returns, but no fixed value stands in for the percentage.  It is NaN when
    100 * energy is zero or NaN, and the state is then Charging or
    Discharging by the status and Empty otherwise; else the quotient is an
    infinity and the percentage is 0 or 100. *)
Theorem zero_capacity pf source :
  let s' := snd (update_battery pf source) in
  let status := g_strstrip (sysfs_get_string pf (native_path source) "status") in
  let numerator := (100 * battery_energy s')%float in
  (battery_energy_full s' =? 0)%float = true ->
  fst (update_battery pf source) = true /\
  if is_nan numerator || is_zero numerator
  then is_nan (battery_percentage s') = true /\
       battery_state s' =
         (if eq_nocase status "charging" then DEVKIT_POWER_STATE_CHARGING
          else if eq_nocase status "discharging" then DEVKIT_POWER_STATE_DISCHARGING
          else DEVKIT_POWER_STATE_EMPTY)
  else battery_percentage s' = 0%float \/ battery_percentage s' = 100%float.
Proof.
  cbv zeta; intros Z; split; [apply update_battery_frame |].
  pose proof (battery_state_formula pf source) as S; cbv zeta in S.
  rewrite S, (percentage_is_clamp pf source).
  destruct (div_by_zero_shape
              (100 * battery_energy (snd (update_battery pf source))) _ Z)
    as [[-> E] | [-> [s E]]].
  - rewrite (clamp_nan _ E), ltb_spec, E; split; [now apply is_nan_true | reflexivity].
  - rewrite (clamp_infinity _ _ E); destruct s; [left | right]; reflexivity.
Qed.

(** C6 fails as stated: with energy_now and energy_full both zero the
    percentage is NaN, and with energy_now at 50000000 it is 100, so a
    capacity of zero has no value of its own. *)
Lemma zero_capacity_counterexample :
  let at_ energy_now :=
    snd (update_battery (battery_dir "" energy_now 0 0)
                        (new_instance BAT0 DEVKIT_POWER_TYPE_BATTERY)) in
  (battery_energy_full (at_ 0%float) =? 0)%float = true /\
  is_nan (battery_percentage (at_ 0%float)) = true /\
  (battery_energy_full (at_ 50000000%float) =? 0)%float = true /\
  battery_percentage (at_ 50000000%float) = 100%float.
Proof. vm_compute; repeat split. Qed.

Lemma zero_capacity_witness :
  let s' := snd (update_battery (battery_dir "" 50000000 0 0)
                                (new_instance BAT0 DEVKIT_POWER_TYPE_BATTERY)) in
  (battery_energy_full s' =? 0)%float = true /\
  (battery_percentage s' = 0%float \/ battery_percentage s' = 100%float).
Proof.
  cbv zeta; split; [vm_compute; reflexivity |].
  exact (proj2 (zero_capacity (battery_dir "" 50000000 0 0)
                  (new_instance BAT0 DEVKIT_POWER_TYPE_BATTERY) eq_refl)).
Defined.

(** ** Construction *)

(** C5, as the code has it.  The first update of [devkit_power_source_new]
    cannot fail, whatever attributes the device has, so construction gives a
    source exactly when the system bus is there.  The source it gives has
    been through that update (its strings are set, its time is stamped) and
    is registered under its object path; when it gives none, nothing has
    been registered and no timeout is left behind.  The main loop gives
    identifiers above 0, as GLib does. *)
Theorem construction_needs_only_the_bus pf dev w :
  0 < next_source_id w ->
  let r := devkit_power_source_new pf dev w in
  let ty := if sysfs_file_exists pf (devkit_device_get_native_path dev) "online"
            then DEVKIT_POWER_TYPE_LINE_POWER else DEVKIT_POWER_TYPE_BATTERY in
  let first := update pf (new_instance dev ty) w in
  let path := compute_object_path (devkit_device_get_native_path dev) in
  fst (fst first) = true /\
  match fst r with
  | Some source =>
      system_bus_up w = true /\
      source = set_object_path (Some path) (snd (fst first)) /\
      bus_objects (snd r) = path :: bus_objects w /\
      vendor source <> None /\ model source <> None /\ serial source <> None /\
      update_time source = now w
  | None =>
      system_bus_up w = false /\
      bus_objects (snd r) = bus_objects w /\
      forall t, In t (timeouts (snd r)) -> In t (timeouts w)
  end.
Proof.
  intros Nx; cbv zeta; unfold devkit_power_source_new, register_power_source.
  set (s0 := new_instance dev _).
  assert (F0 : poll_timer_id s0 = 0 /\ vendor s0 = None /\
               native_path s0 = devkit_device_get_native_path dev)
    by (repeat split).
  destruct F0 as (P0 & V0 & N0).
  pose proof (update_effect pf s0 w) as U; cbv zeta in U.
  destruct (update pf s0 w) as [[ok s1] w1]; cbn [fst snd] in *.
  destruct U as (-> & _ & T & P & _ & Ut & _ & Np & _ & _ & V & _ & B & Up).
  split; [reflexivity |]; cbn [negb]; rewrite Up.
  destruct (system_bus_up w); cbn [negb fst snd].
  - world_fields; rewrite Np, N0, B.
    destruct V as [(V1 & V2 & V3) | V]; [| congruence].
    destruct_source s1; source_fields; repeat split; assumption.
  - unfold devkit_power_source_finalize, after_disarm in *.
    rewrite P0 in *; cbn [Z.ltb Z.compare] in *.
    destruct (0 <? poll_timer_id s1) eqn:Q; world_fields;
      repeat split; try assumption; intros t H.
    + apply filter_In in H; destruct H as [H K]; rewrite T in H.
      destruct (type s0); [exact H |].
      destruct H as [<- | H]; [| exact H].
      cbn [timeout_id] in K; rewrite P, Z.eqb_refl in K; discriminate.
    + rewrite T in H; destruct (type s0); [exact H |].
      rewrite P in Q; apply Z.ltb_ge in Q; lia.
Qed.

(** C5 fails as stated: a battery directory without a single attribute
    still gives a source, registered on the bus, whose percentage is NaN. *)
Lemma construction_counterexample :
  forallb (fun name =>
             negb (sysfs_file_exists bare_dir (devkit_device_get_native_path BAT0) name))
          battery_attributes = true /\
  exists source w',
    devkit_power_source_new bare_dir BAT0 boot = (Some source, w') /\
    In "/sources/BAT0" (bus_objects w') /\
    vendor source = Some "" /\
    is_nan (battery_percentage source) = true.
Proof.
  split; [reflexivity |].
  eexists; eexists; split; [vm_compute; reflexivity |].
  split; [left; reflexivity | split; reflexivity].
Qed.

Lemma construction_witness :
  0 < next_source_id boot /\
  fst (fst (update bare_dir (new_instance BAT0 DEVKIT_POWER_TYPE_BATTERY) boot)) = true.
Proof.
  split; [reflexivity |].
  exact (proj1 (construction_needs_only_the_bus bare_dir BAT0 boot eq_refl)).
Defined.

(** ** The theorems at work on the test devices *)


Lemma object_path_derivation_witness :
  names_a_device "/sys/block/dm-0" = true /\
  compute_object_path "/sys/block/dm-0" = "/sources/dm_0".
Proof.
  split; [reflexivity |].
  exact (proj1 (object_path_derivation "/sys/block/dm-0" eq_refl)).
Defined.

(** A battery built at boot, as [devkit_power_source_new] leaves it. *)
Lemma first_battery_reachable :
  exists source w,
    devkit_power_source_new (battery_dir "Discharging" 50000000 100000000 2000000)
                            BAT0 boot = (Some source, w) /\
    reachable (source, w) /\ timeouts w <> [].
Proof.
  destruct (devkit_power_source_new _ BAT0 boot) as [[source |] w] eqn:E;
    [| vm_compute in E; discriminate].
  exists source, w; split; [reflexivity | split].
  - exact (reachable_new _ BAT0 boot source w eq_refl eq_refl E).
  - vm_compute in E; injection E as <- <-; discriminate.
Defined.

Lemma one_poll_timer_witness :
  exists source w, reachable (source, w) /\ (List.length (timeouts w) <= 1)%nat.
Proof.
  destruct first_battery_reachable as (source & w & _ & R & _).
  exists source, w; split; [exact R | exact (proj1 (one_poll_timer source w R))].
Defined.

Lemma poll_fires_once_witness :
  exists source w t,
    reachable (source, w) /\ In t (timeouts w) /\
    timeout_due t = update_time source + 30.
Proof.
  destruct first_battery_reachable as (source & w & _ & R & N).
  destruct (timeouts w) as [| t l] eqn:T; [now elim N |].
  assert (H : In t (timeouts w)) by (rewrite T; left; reflexivity).
  exists source, w, t; split; [exact R | split; [exact H |]].
  exact (proj1 (poll_fires_once source w t R H)).
Defined.

(** * More of the file *)

(** ** What an update leaves alone *)

Lemma update_battery_rest pf source :
  let s' := snd (update_battery pf source) in
  line_power_online s' = line_power_online source /\
  battery_technology s' = battery_technology source /\
  battery_energy_empty s' = battery_energy_empty source.
Proof.
  destruct_source source; unfold update_battery; cbv zeta; source_fields.
  set (st := g_strstrip _).
  destruct (strcasecmp st "charging" =? 0), (strcasecmp st "discharging" =? 0);
    run_battery; repeat split.
Qed.

(** The fields of the source after [update], beyond those of
    [update_effect]. *)
Lemma update_fields pf source w :
  let s' := snd (fst (update pf source w)) in
  let dir := native_path source in
  (battery_time_to_empty s' = battery_time_to_empty source /\
   battery_time_to_full s' = battery_time_to_full source /\
   battery_energy_empty s' = battery_energy_empty source) /\
  match vendor source with
  | Some _ =>
      vendor s' = vendor source /\ model s' = model source /\
      serial s' = serial source /\ battery_technology s' = battery_technology source
  | None =>
      vendor s' = Some (g_strstrip (sysfs_get_string pf dir "manufacturer")) /\
      model s' = Some (g_strstrip (sysfs_get_string pf dir "model_name")) /\
      serial s' = Some (g_strstrip (sysfs_get_string pf dir "serial_number")) /\
      battery_technology s' =
        devkit_power_convert_acpi_technology_to_enum pf
          (g_strstrip (sysfs_get_string pf dir "technology"))
  end /\
  match type source with
  | DEVKIT_POWER_TYPE_LINE_POWER =>
      line_power_online s' = sysfs_get_int pf dir "online" /\
      battery_state s' = battery_state source /\
      battery_energy s' = battery_energy source /\
      battery_energy_full s' = battery_energy_full source /\
      battery_energy_full_design s' = battery_energy_full_design source /\
      battery_energy_rate s' = battery_energy_rate source /\
      battery_percentage s' = battery_percentage source
  | DEVKIT_POWER_TYPE_BATTERY =>
      line_power_online s' = line_power_online source /\
      battery_energy s' = (sysfs_get_double pf dir "energy_now" / 1000000)%float /\
      battery_energy_full s' = (sysfs_get_double pf dir "energy_full" / 1000000)%float /\
      battery_percentage s' =
        clamp 0 100 (100 * battery_energy s' / battery_energy_full s')
  end.
Proof.
  cbv zeta; unfold update, update_line_power.
  destruct_source source; source_fields.
  destruct (0 <? pt) eqn:P; destruct ve as [v |]; destruct ty; source_fields;
    world_fields;
    try (lazymatch goal with
         | |- context [update_battery ?pf ?s] =>
             rewrite (update_battery_pair pf s);
             pose proof (update_battery_frame pf s) as F; cbv zeta in F;
             pose proof (update_battery_rest pf s) as R; cbv zeta in R;
             pose proof (update_battery_fields pf s) as B; cbv zeta in B;
             pose proof (percentage_is_clamp pf s) as C; cbv zeta in C;
             destruct (snd (update_battery pf s)); source_fields; world_fields
         end);
    repeat split; intuition congruence.
Qed.

(** ** What holds of a source all its life *)

Lemma update_fields_settled pf source w :
  fields_settled source -> fields_settled (snd (fst (update pf source w))).
Proof.
  unfold fields_settled; intros ((Te & Tf & Ee) & (ratio & Pc) & K).
  pose proof (update_fields pf source w) as F; cbv zeta in F.
  pose proof (update_effect pf source w) as U; cbv zeta in U.
  destruct U as (_ & _ & _ & P & _ & _ & Ty & _).
  destruct F as ((F1 & F2 & F3) & _ & F).
  rewrite Ty, F1, F2, F3; split; [auto |].
  destruct (type source).
  - destruct K as (P0 & K1 & K2 & K3 & K4 & K5 & K6).
    destruct F as (_ & G1 & G2 & G3 & G4 & G5 & G6).
    rewrite P, P0, G1, G2, G3, G4, G5, G6; split; [exists ratio; exact Pc |].
    repeat split; assumption.
  - destruct F as (G1 & _ & _ & G2); split; [eexists; exact G2 | congruence].
Qed.

Lemma new_instance_fields_settled dev ty : fields_settled (new_instance dev ty).
Proof.
  unfold fields_settled; split; [repeat split | split].
  - exists 0%float; reflexivity.
  - destruct ty; repeat split.
Qed.

Lemma update_settled pf source w :
  settled (source, w) ->
  settled (snd (fst (update pf source w)), snd (update pf source w)).
Proof.
  unfold settled; intros (F & (V & M & S) & (O & B)).
  split; [apply update_fields_settled, F |].
  pose proof (update_fields pf source w) as G; cbv zeta in G.
  pose proof (update_effect pf source w) as U; cbv zeta in U.
  destruct U as (_ & _ & _ & _ & _ & _ & _ & Np & Op & _ & _ & _ & Bo & _).
  destruct G as (_ & G & _).
  destruct (vendor source) eqn:E; [| now elim V].
  destruct G as (-> & -> & -> & _).
  rewrite Np, Op, Bo; repeat split; assumption.
Qed.

Lemma set_d_settled dev source w : settled (source, w) -> settled (set_d dev source, w).
Proof. destruct_source source; exact (fun H => H). Qed.

Lemma changed_settled pf dev synthesized source w :
  settled (source, w) ->
  let r := devkit_power_source_changed pf dev synthesized source w in
  settled (snd (fst r), snd r).
Proof.
  intros I; apply (set_d_settled dev) in I; cbv zeta.
  unfold devkit_power_source_changed.
  pose proof (update_settled pf _ _ I) as U.
  destruct (update pf (set_d dev source) w) as [[keep s'] w'].
  destruct keep; exact U.
Qed.

Lemma refresh_settled pf context source w :
  settled (source, w) ->
  let r := devkit_power_source_refresh pf context source w in
  settled (snd (fst r), snd r).
Proof.
  intros I; cbv zeta; unfold devkit_power_source_refresh.
  pose proof (update_settled pf _ _ I) as U.
  destruct (update pf source w) as [[keep s'] w']; exact U.
Qed.

Lemma dispatch_settled pf t source w :
  type source = DEVKIT_POWER_TYPE_BATTERY ->
  settled (source, w) -> settled (dispatch_timeout pf t source w).
Proof.
  intros Ty I; unfold dispatch_timeout, _poll_battery.
  set (w1 := call _ w).
  assert (I1 : settled (set_poll_timer_id 0 source, w1)).
  { destruct_source source; source_fields; subst ty; exact I. }
  pose proof (update_settled pf _ _ I1) as U.
  destruct (update pf (set_poll_timer_id 0 source) w1) as [[keep s'] w'].
  exact U.
Qed.

Lemma new_settled pf dev w source w' :
  devkit_power_source_new pf dev w = (Some source, w') -> settled (source, w').
Proof.
  unfold devkit_power_source_new, register_power_source.
  set (s0 := new_instance dev _).
  pose proof (update_fields_settled pf s0 w (new_instance_fields_settled dev _)) as F.
  pose proof (update_effect pf s0 w) as U; cbv zeta in U.
  destruct (update pf s0 w) as [[ok s1] w1]; cbn [fst snd] in *.
  destruct U as (-> & _ & _ & _ & _ & _ & _ & _ & _ & _ & V & _).
  cbn [negb]; destruct (system_bus_up w1); cbn [negb]; [| discriminate].
  intros E; injection E as <- <-.
  destruct V as [V | V]; [| now elim V].
  destruct_source s1; unfold settled; source_fields; world_fields.
  split; [exact F | split; [exact V | split; [reflexivity | left; reflexivity]]].
Qed.

Lemma reachable_settled st : reachable st -> settled st.
Proof.
  induction 1 as [pf dev w source w' T N E | st i st' R IH S].
  - exact (new_settled pf dev w source w' E).
  - pose proof (reachable_invariant st R) as Ti.
    destruct S as [pf dev syn source w keep source' w' E
                  | pf context source w ret source' w' E
                  | pf t source w source' w' H D E
                  | seconds source w P].
    + pose proof (changed_settled pf dev syn source w IH) as C.
      cbv zeta in C; rewrite E in C; exact C.
    + pose proof (refresh_settled pf context source w IH) as C.
      cbv zeta in C; rewrite E in C; exact C.
    + rewrite <- E; apply dispatch_settled; [| exact IH].
      destruct Ti as [_ [[_ Em] | [_ [Ty _]]]]; [rewrite Em in H; elim H | exact Ty].
    + exact IH.
Qed.

(** A battery always has its poll timer set. *)
Lemma reachable_battery_polls st :
  reachable st -> type (fst st) = DEVKIT_POWER_TYPE_BATTERY ->
  0 < poll_timer_id (fst st).
Proof.
  assert (Up : forall pf s w, 0 < next_source_id w ->
             type (snd (fst (update pf s w))) = DEVKIT_POWER_TYPE_BATTERY ->
             0 < poll_timer_id (snd (fst (update pf s w)))).
  { intros pf s w N Ty; pose proof (update_effect pf s w) as U; cbv zeta in U.
    destruct U as (_ & _ & _ & P & _ & _ & Ty' & _).
    rewrite Ty' in Ty; rewrite P, Ty; exact N. }
  induction 1 as [pf dev w0 s0 w1 T N E | st i st' R IH S]; cbn [fst].
  - revert E; unfold devkit_power_source_new, register_power_source.
    pose proof (Up pf (new_instance dev
                         (if sysfs_file_exists pf (devkit_device_get_native_path dev) "online"
                          then DEVKIT_POWER_TYPE_LINE_POWER
                          else DEVKIT_POWER_TYPE_BATTERY)) w0 N) as U.
    destruct (update pf _ w0) as [[ok s1] w2]; cbn [fst snd] in U.
    destruct ok; cbn [negb]; [| discriminate].
    destruct (system_bus_up w2); cbn [negb]; [| discriminate].
    intros E; injection E as <- <-; destruct_source s1; exact U.
  - pose proof (reachable_invariant st R) as Ti.
    destruct S as [pf dev syn s w' keep s' w'' E
                  | pf context s w' ret s' w'' E
                  | pf t s w' s' w'' H D E
                  | seconds s w' P]; cbn [fst] in *.
    + assert (N : 0 < next_source_id w') by (destruct Ti; assumption).
      revert E; unfold devkit_power_source_changed.
      pose proof (Up pf (set_d dev s) w' N) as U.
      destruct (update pf (set_d dev s) w') as [[k s1] w1]; cbn [fst snd] in U.
      destruct k; cbn [negb]; intros E; injection E as _ <- _; exact U.
    + assert (N : 0 < next_source_id w') by (destruct Ti; assumption).
      revert E; unfold devkit_power_source_refresh.
      pose proof (Up pf s w' N) as U.
      destruct (update pf s w') as [[k s1] w1]; cbn [fst snd] in U.
      intros E; injection E as _ <- _; exact U.
    + pose proof (dispatch_effect pf t s w' Ti H) as De; cbv zeta in De.
      rewrite E in De; cbn [fst snd] in De.
      destruct De as (_ & -> & _); intros _; destruct Ti; assumption.
    + exact IH.
Qed.

(** What a step keeps of the source. *)
Lemma step_keeps st i st' :
  settled st -> timer_invariant st -> step st i st' ->
  native_path (fst st') = native_path (fst st) /\
  type (fst st') = type (fst st) /\
  object_path (fst st') = object_path (fst st) /\
  vendor (fst st') = vendor (fst st) /\ model (fst st') = model (fst st) /\
  serial (fst st') = serial (fst st) /\
  battery_technology (fst st') = battery_technology (fst st).
Proof.
  assert (Up : forall pf s w, vendor s <> None ->
             let s' := snd (fst (update pf s w)) in
             native_path s' = native_path s /\ type s' = type s /\
             object_path s' = object_path s /\ vendor s' = vendor s /\
             model s' = model s /\ serial s' = serial s /\
             battery_technology s' = battery_technology s).
  { intros pf s w V; cbv zeta.
    pose proof (update_effect pf s w) as U; cbv zeta in U.
    pose proof (update_fields pf s w) as F; cbv zeta in F.
    destruct U as (_ & _ & _ & _ & _ & _ & Ty & Np & Op & _).
    destruct F as (_ & F & _); destruct (vendor s); [| now elim V].
    repeat split; tauto. }
  intros I Ti S.
  destruct S as [pf dev syn s w keep s' w' E
                | pf context s w ret s' w' E
                | pf t s w s' w' H D E
                | seconds s w P]; cbn [fst snd];
    destruct I as (_ & (V & _) & _).
  - revert E; unfold devkit_power_source_changed.
    assert (V' : vendor (set_d dev s) <> None) by (destruct_source s; exact V).
    pose proof (Up pf (set_d dev s) w V') as U; cbv zeta in U.
    destruct (update pf (set_d dev s) w) as [[k s1] w1]; cbn [fst snd] in U.
    destruct k; cbn [negb]; intros E; injection E as _ <- _;
      destruct_source s; exact U.
  - revert E; unfold devkit_power_source_refresh.
    pose proof (Up pf s w V) as U; cbv zeta in U.
    destruct (update pf s w) as [[k s1] w1]; cbn [fst snd] in U.
    intros E; injection E as _ <- _; exact U.
  - revert E; unfold dispatch_timeout, _poll_battery.
    set (w1 := call _ w).
    assert (V' : vendor (set_poll_timer_id 0 s) <> None) by (destruct_source s; exact V).
    pose proof (Up pf (set_poll_timer_id 0 s) w1 V') as U; cbv zeta in U.
    destruct (update pf (set_poll_timer_id 0 s) w1) as [[k s1] w2]; cbn [fst snd] in U.
    intros E; injection E as <- _; destruct_source s; exact U.
  - repeat split.
Qed.

(** ** The life of a source, continued *)

(** A reachable state with a step to take: the first battery, at a change
    of its device. *)
Lemma first_battery_step :
  exists st i st', reachable st /\ step st i st'.
Proof.
  destruct first_battery_reachable as (source & w & _ & R & _).
  destruct (devkit_power_source_changed bare_dir BAT0 false source w)
    as [[keep s'] w'] eqn:E.
  exists (source, w), (DEVICE_CHANGED bare_dir BAT0 false), (s', w'); split; [exact R |].
  exact (step_changed bare_dir BAT0 false source w keep s' w' E).
Defined.

(** X1.  The times to empty and to full are never computed: all its life a
    source has both at -1, the value [devkit_power_source_init] gave them,
    and that is what the two properties show. *)
Theorem times_stay_unknown source w :
  reachable (source, w) ->
  battery_time_to_empty source = -1 /\ battery_time_to_full source = -1 /\
  forall et value,
    fst (get_property et PROP_BATTERY_TIME_TO_EMPTY value source w) = G_VALUE_INT64 (-1) /\
    fst (get_property et PROP_BATTERY_TIME_TO_FULL value source w) = G_VALUE_INT64 (-1).
Proof.
  intros R; apply reachable_settled in R.
  destruct R as (((Te & Tf & _) & _) & _).
  split; [exact Te | split; [exact Tf |]].
  intros et value; unfold get_property; cbn; rewrite Te, Tf; split; reflexivity.
Qed.

Lemma times_stay_unknown_witness :
  exists source w, reachable (source, w) /\ battery_time_to_empty source = -1.
Proof.
  destruct first_battery_reachable as (source & w & _ & R & _).
  exists source, w; split; [exact R | exact (proj1 (times_stay_unknown source w R))].
Defined.

(** X2.  Vendor, model, serial and technology are read by the first update
    only: a built source has the three strings set, and no later change
    event, refresh or poll alters any of the four, whatever the attributes
    have become. *)
Theorem static_fields_read_once st i st' :
  reachable st -> step st i st' ->
  (vendor (fst st) <> None /\ model (fst st) <> None /\ serial (fst st) <> None) /\
  vendor (fst st') = vendor (fst st) /\ model (fst st') = model (fst st) /\
  serial (fst st') = serial (fst st) /\
  battery_technology (fst st') = battery_technology (fst st).
Proof.
  intros R S.
  pose proof (reachable_settled st R) as I.
  pose proof (step_keeps st i st' I (reachable_invariant st R) S) as K.
  split; [destruct st; apply I | tauto].
Qed.

Lemma static_fields_read_once_witness :
  exists st i st', reachable st /\ step st i st' /\ vendor (fst st') = vendor (fst st).
Proof.
  destruct first_battery_step as (st & i & st' & R & S).
  exists st, i, st'; split; [exact R | split; [exact S |]].
  exact (proj1 (proj2 (static_fields_read_once st i st' R S))).
Defined.

(** X3.  The identity of a source is fixed at construction: all its life
    [devkit_power_source_get_object_path] gives the object path computed
    from its native path, that path is registered on the bus, and no step
    changes native path, type or object path. *)
Theorem identity_is_fixed source w :
  reachable (source, w) ->
  devkit_power_source_get_object_path source
  = Some (compute_object_path (native_path source)) /\
  In (compute_object_path (native_path source)) (bus_objects w) /\
  forall i st', step (source, w) i st' ->
    native_path (fst st') = native_path source /\
    type (fst st') = type source /\
    object_path (fst st') = object_path source.
Proof.
  intros R; pose proof (reachable_settled _ R) as I.
  destruct I as (F & V & O & B); split; [exact O | split; [exact B |]].
  intros i st' S.
  pose proof (step_keeps _ i st' (reachable_settled _ R) (reachable_invariant _ R) S) as K.
  cbn [fst] in K; tauto.
Qed.

Lemma identity_is_fixed_witness :
  exists source w,
    reachable (source, w) /\
    devkit_power_source_get_object_path source
    = Some (compute_object_path (native_path source)).
Proof.
  destruct first_battery_reachable as (source & w & _ & R & _).
  exists source, w; split; [exact R | exact (proj1 (identity_is_fixed source w R))].
Defined.

(** X4.  Finalizing a source removes its poll timer: whatever state the
    source is in, the main loop holds no timeout of it afterwards, and
    [g_source_remove] is called exactly when a poll was pending.  The
    removal notification, whose body is empty, leaves the timer as it is. *)
Theorem finalize_cancels_poll source w :
  reachable (source, w) ->
  timeouts (devkit_power_source_finalize source w) = [] /\
  calls_since w (devkit_power_source_finalize source w)
  = (if 0 <? poll_timer_id source then [G_SOURCE_REMOVE (poll_timer_id source)] else []) /\
  (forall pf t st',
     ~ step (source, devkit_power_source_finalize source w) (TIMEOUT pf t) st') /\
  timeouts (snd (devkit_power_source_removed source w)) = timeouts w.
Proof.
  intros R; pose proof (reachable_invariant _ R) as Ti.
  pose proof (after_disarm_invariant source w Ti) as A.
  assert (T : timeouts (devkit_power_source_finalize source w) = []).
  { unfold devkit_power_source_finalize, after_disarm in *.
    destruct (0 <? poll_timer_id source); exact A. }
  split; [exact T | split; [| split; [| reflexivity]]].
  - apply calls_since_app; unfold devkit_power_source_finalize.
    destruct (0 <? poll_timer_id source); world_fields;
      [reflexivity | symmetry; apply app_nil_r].
  - intros pf t st' S; inversion S as [| | ? ? ? ? ? ? I _ _ |].
    rewrite T in I; exact I.
Qed.

Lemma finalize_cancels_poll_witness :
  exists source w,
    reachable (source, w) /\ timeouts w <> [] /\
    timeouts (devkit_power_source_finalize source w) = [].
Proof.
  destruct first_battery_reachable as (source & w & _ & R & N).
  exists source, w; split; [exact R | split; [exact N |]].
  exact (proj1 (finalize_cancels_poll source w R)).
Defined.

(** X5.  The type decides for good which fields and which timer a source
    uses.  A line power source never has a poll timer and keeps every
    battery field as [g_object_new] left it; a battery always has exactly
    one timeout pending, of 30 seconds and due 30 seconds after its last
    update, and never touches [line_power_online]. *)
Theorem type_decides_fields source w :
  reachable (source, w) ->
  match type source with
  | DEVKIT_POWER_TYPE_LINE_POWER =>
      poll_timer_id source = 0 /\ timeouts w = [] /\
      battery_energy source = 0%float /\ battery_energy_full source = 0%float /\
      battery_energy_full_design source = 0%float /\
      battery_energy_rate source = 0%float /\ battery_percentage source = 0%float
  | DEVKIT_POWER_TYPE_BATTERY =>
      line_power_online source = 0 /\
      timeouts w = [{| timeout_id := poll_timer_id source; timeout_interval := 30;
                       timeout_due := update_time source + 30 |}]
  end.
Proof.
  intros R; pose proof (reachable_settled _ R) as I.
  pose proof (reachable_invariant _ R) as Ti.
  pose proof (reachable_battery_polls _ R) as Bp; cbn [fst] in Bp.
  destruct I as ((_ & _ & K) & _).
  destruct (type source).
  - destruct K as (P & _ & K); split; [exact P |].
    split; [| exact K].
    destruct Ti as [_ [[_ E] | [Q _]]]; [exact E | lia].
  - split; [exact K |].
    specialize (Bp eq_refl).
    destruct Ti as [_ [[Q _] | [_ [_ E]]]]; [lia | exact E].
Qed.

Lemma type_decides_fields_witness :
  exists source w,
    reachable (source, w) /\ type source = DEVKIT_POWER_TYPE_BATTERY /\
    line_power_online source = 0.
Proof.
  destruct first_battery_reachable as (source & w & E & R & _).
  exists source, w; split; [exact R |].
  pose proof (type_decides_fields source w R) as K.
  assert (Ty : type source = DEVKIT_POWER_TYPE_BATTERY)
    by (vm_compute in E; injection E as <- _; reflexivity).
  rewrite Ty in K; split; [exact Ty | exact (proj1 K)].
Defined.

Lemma calls_since_same w : calls_since w w = [].
Proof. apply calls_since_app; symmetry; apply app_nil_r. Qed.

(** X6.  No signal leaves without an object path: every device-changed
    signal a step sends to the daemon carries the object path registered
    for the source, never [NULL], and comes together with exactly as many
    changed signals. *)
Theorem signals_carry_the_object_path source w i st' :
  reachable (source, w) -> step (source, w) i st' ->
  (forall path, In (SIGNAL_DEVICE_CHANGED path) (calls_since w (snd st')) ->
                path = Some (compute_object_path (native_path source))) /\
  count_calls is_daemon_signal (calls_since w (snd st'))
  = count_calls is_changed_signal (calls_since w (snd st')).
Proof.
  intros R S; pose proof (reachable_settled _ R) as I.
  pose proof (reachable_invariant _ R) as Ti.
  destruct I as (_ & _ & O & _).
  assert (Up : forall path, ~ In (SIGNAL_DEVICE_CHANGED path) (update_calls source w)).
  { intros path; unfold update_calls.
    destruct (0 <? poll_timer_id source), (type source); cbn; intuition discriminate. }
  destruct (update_calls_counts source w) as (_ & U2 & U3).
  inversion S as [pf dev syn s0 w0 keep s' w' E
                 | pf context s0 w0 ret s' w' E
                 | pf t s0 w0 s' w' H D E
                 | seconds s0 w0 P]; subst; cbn [snd].
  - pose proof (changed_effect pf dev syn source w) as C; cbv zeta in C.
    rewrite E in C; cbn [fst snd] in C; destruct C as (_ & _ & _ & C).
    rewrite (calls_since_app _ _ _ C), !count_calls_app, U2, U3; split; [| reflexivity].
    intros path K; apply in_app_or in K; destruct K as [K | K]; [elim (Up _ K) |].
    cbn in K; destruct K as [K | [K | [K | []]]]; try discriminate.
    injection K as <-; exact O.
  - pose proof (refresh_effect pf context source w) as C; cbv zeta in C.
    rewrite E in C; cbn [fst snd] in C; destruct C as (_ & _ & _ & C).
    rewrite (calls_since_app _ _ _ C), !count_calls_app, U2, U3; split; [| reflexivity].
    intros path K; apply in_app_or in K; destruct K as [K | K]; [elim (Up _ K) |].
    cbn in K; destruct K as [K | []]; discriminate.
  - pose proof (dispatch_effect pf t source w Ti H) as C; cbv zeta in C.
    rewrite E in C; cbn [fst snd] in C.
    destruct C as (_ & _ & _ & _ & _ & _ & C).
    rewrite (calls_since_app _ _ _ C); split; [| reflexivity].
    intros path K; cbn in K.
    destruct K as [K | [K | [K | [K | [K | [K | []]]]]]]; try discriminate.
    injection K as <-; exact O.
  - change (calls (set_now (now w + seconds) w)) with (calls w).
    unfold calls_since; cbn [calls set_now].
    fold (calls_since w w); rewrite calls_since_same; split; [intros ? [] | reflexivity].
Qed.

Lemma signals_carry_the_object_path_witness :
  exists source w i st',
    reachable (source, w) /\ step (source, w) i st' /\
    count_calls is_daemon_signal (calls_since w (snd st'))
    = count_calls is_changed_signal (calls_since w (snd st')).
Proof.
  destruct first_battery_step as ([source w] & i & st' & R & S).
  exists source, w, i, st'; split; [exact R | split; [exact S |]].
  exact (proj2 (signals_carry_the_object_path source w i st' R S)).
Defined.

(** ** What an update reads and what it overwrites *)

Lemma update_battery_same pf pf' source :
  same_readings (native_path source) pf pf' ->
  update_battery pf source = update_battery pf' source.
Proof.
  intros [A _].
  destruct (A "status") as (S1 & _); [cbn; tauto |].
  destruct (A "energy_now") as (_ & _ & D2); [cbn; tauto |].
  destruct (A "energy_full") as (_ & _ & D3); [cbn; tauto |].
  destruct (A "energy_full_design") as (_ & _ & D4); [cbn; tauto |].
  destruct (A "current_now") as (_ & _ & D5); [cbn; tauto |].
  clear A; destruct_source source; source_fields.
  unfold update_battery; cbv zeta; source_fields.
  rewrite S1, D2, D3, D4, D5; reflexivity.
Qed.

(** X7.  An update reads the device through nothing but the attributes of
    the directory stored as native path: two platforms that agree on
    "online" and on the nine battery attributes of that directory, and
    convert technologies alike, give the same update, and so the same
    change event, refresh and poll. *)
Theorem update_reads_own_directory pf pf' source w :
  same_readings (native_path source) pf pf' ->
  update pf source w = update pf' source w /\
  (forall dev synthesized,
     devkit_power_source_changed pf dev synthesized source w
     = devkit_power_source_changed pf' dev synthesized source w) /\
  (forall context,
     devkit_power_source_refresh pf context source w
     = devkit_power_source_refresh pf' context source w) /\
  _poll_battery pf source w = _poll_battery pf' source w.
Proof.
  intros Same.
  assert (Up : forall s w0, native_path s = native_path source ->
                            update pf s w0 = update pf' s w0).
  { intros s w0 Np; rewrite <- Np in Same; destruct Same as [A C].
    destruct (A "online") as (_ & I0 & _); [cbn; tauto |].
    destruct (A "technology") as (S6 & _); [cbn; tauto |].
    destruct (A "manufacturer") as (S7 & _); [cbn; tauto |].
    destruct (A "model_name") as (S8 & _); [cbn; tauto |].
    destruct (A "serial_number") as (S9 & _); [cbn; tauto |].
    assert (B : forall s1, native_path s1 = native_path s ->
                           update_battery pf s1 = update_battery pf' s1).
    { intros s1 E; apply update_battery_same; rewrite E; split; assumption. }
    clear A Np; unfold update, update_line_power.
    destruct_source s; source_fields.
    destruct (0 <? pt); destruct ve; destruct ty; source_fields; world_fields;
      rewrite ?I0, ?S6, ?S7, ?S8, ?S9, ?C; try reflexivity;
      rewrite B by reflexivity; reflexivity. }
  split; [apply Up; reflexivity | split; [| split]].
  - intros dev syn; unfold devkit_power_source_changed.
    rewrite Up by (destruct_source source; reflexivity); reflexivity.
  - intros context; unfold devkit_power_source_refresh; rewrite Up; reflexivity.
  - unfold _poll_battery.
    rewrite Up by (destruct_source source; reflexivity); reflexivity.
Qed.

(** [battery_dir] keeps its readings when only the files it says exist
    differ. *)
Lemma update_reads_own_directory_witness :
  let pf := battery_dir "Charging" 50000000 100000000 2000000 in
  let pf' := {| sysfs_file_exists := fun _ _ => true;
                sysfs_get_string := sysfs_get_string pf;
                sysfs_get_int := sysfs_get_int pf;
                sysfs_get_double := sysfs_get_double pf;
                devkit_power_convert_acpi_technology_to_enum :=
                  devkit_power_convert_acpi_technology_to_enum pf |} in
  update pf (new_instance BAT0 DEVKIT_POWER_TYPE_BATTERY) boot
  = update pf' (new_instance BAT0 DEVKIT_POWER_TYPE_BATTERY) boot.
Proof.
  cbv zeta.
  refine (proj1 (update_reads_own_directory _ _ _ boot _)).
  split; [intros name _; repeat split | intros s; reflexivity].
Defined.

Lemma update_battery_set_d pf dev source :
  update_battery pf (set_d dev source)
  = (true, set_d dev (snd (update_battery pf source))).
Proof.
  destruct_source source; unfold update_battery; cbv zeta; source_fields.
  set (st := g_strstrip _).
  destruct (strcasecmp st "charging" =? 0), (strcasecmp st "discharging" =? 0);
    run_battery; reflexivity.
Qed.

Lemma update_set_d pf dev source w :
  update pf (set_d dev source) w
  = (fst (fst (update pf source w)), set_d dev (snd (fst (update pf source w))),
     snd (update pf source w)).
Proof.
  unfold update, update_line_power.
  destruct_source source; source_fields.
  destruct (0 <? pt); destruct ve; destruct ty; source_fields; world_fields;
    try reflexivity.
  all: match goal with
       | |- context [update_battery ?pf (mkSource ?a ?b ?c ?d ?e ?f ?g ?h ?i ?j ?k ?l
                                                  ?m ?n ?o ?p ?q ?r ?s ?t)] =>
           change (mkSource a b c d e f g h i j k l m n o p q r s t)
             with (set_d a (mkSource dd b c d e f g h i j k l m n o p q r s t)) at 1;
           rewrite update_battery_set_d, (update_battery_pair pf (mkSource dd b c d e f g h i j k l m n o p q r s t))
       end; cbn [fst snd];
    match goal with
    | |- context [snd (update_battery ?pf ?s)] =>
        destruct (snd (update_battery pf s)); reflexivity
    end.
Qed.

(** X8.  A change event swaps the device descriptor and nothing else: the
    source it leaves is the one a plain update leaves, with [d] set to the
    new descriptor.  Native path, object path and type stay, also when the
    new descriptor names another path, so the attributes are still read in
    the directory the source was built for. *)
Theorem changed_keeps_native_path pf dev synthesized source w :
  let r := devkit_power_source_changed pf dev synthesized source w in
  snd (fst r) = set_d dev (snd (fst (update pf source w))) /\
  d (snd (fst r)) = dev /\
  native_path (snd (fst r)) = native_path source /\
  object_path (snd (fst r)) = object_path source /\
  type (snd (fst r)) = type source.
Proof.
  cbv zeta; unfold devkit_power_source_changed; rewrite update_set_d.
  pose proof (update_effect pf source w) as U; cbv zeta in U.
  destruct U as (K & _ & _ & _ & _ & _ & Ty & Np & Op & _).
  rewrite K; cbn [negb fst snd].
  destruct (snd (fst (update pf source w))); source_fields.
  repeat split; assumption.
Qed.

(** ** Properties *)

(** X9.  [get_property] answers exactly the identifiers the class installs,
    with a value of the type the installed spec declares and without a
    call; for any other identifier, [PROP_0] included, it leaves the value
    as it was and warns. *)
Theorem get_property_matches_class et prop_id value source w :
  match installed prop_id devkit_power_source_class_init with
  | Some pspec =>
      value_type (fst (get_property et prop_id value source w)) = pspec_type pspec /\
      snd (get_property et prop_id value source w) = w
  | None =>
      get_property et prop_id value source w
      = (value, call (G_WARNING "invalid property id") w)
  end.
Proof.
  unfold get_property, devkit_power_source_class_init, installed.
  repeat match goal with
         | |- context [prop_id =? ?k] =>
             destruct (Z.eqb_spec prop_id k) as [-> | ?]; cbn;
             [split; reflexivity |]
         end.
  reflexivity.
Qed.

(** X10.  All the life of a source, the properties that are not battery
    measurements hold valid values for their specs: the four strings and
    the three texts, update-time within [0, G_MAXUINT64], line-power-online,
    battery-energy-empty at 0 and the two times at -1. *)
Theorem properties_valid et prop_id value source w :
  reachable (source, w) ->
  In prop_id [PROP_NATIVE_PATH; PROP_VENDOR; PROP_MODEL; PROP_SERIAL;
              PROP_UPDATE_TIME; PROP_TYPE; PROP_LINE_POWER_ONLINE;
              PROP_BATTERY_STATE; PROP_BATTERY_ENERGY_EMPTY;
              PROP_BATTERY_TIME_TO_EMPTY; PROP_BATTERY_TIME_TO_FULL;
              PROP_BATTERY_TECHNOLOGY] ->
  match installed prop_id devkit_power_source_class_init with
  | Some pspec => valid_for pspec (fst (get_property et prop_id value source w)) = true
  | None => False
  end.
Proof.
  intros R H; apply reachable_settled in R.
  destruct R as (((Te & Tf & Ee) & _) & _).
  assert (M : 0 <= to_guint64 (update_time source) <= G_MAXUINT64).
  { unfold to_guint64, G_MAXUINT64.
    pose proof (Z.mod_pos_bound (update_time source) (18446744073709551615 + 1)).
    lia. }
  cbn [In] in H.
  repeat (destruct H as [<- | H]; [cbn; try reflexivity |]); try now elim H.
  - apply andb_true_intro; split; apply Z.leb_le; lia.
  - rewrite Ee; reflexivity.
  - rewrite Te; reflexivity.
  - rewrite Tf; reflexivity.
Qed.

Lemma properties_valid_witness :
  exists source w,
    reachable (source, w) /\
    valid_for (g_param_spec_uint64 "update-time" 0 G_MAXUINT64 0)
      (fst (get_property
              {| devkit_power_convert_type_to_text := fun _ => "";
                 devkit_power_convert_state_to_text := fun _ => "";
                 devkit_power_convert_technology_to_text := fun _ => "" |}
              PROP_UPDATE_TIME (G_VALUE_UINT64 0) source w)) = true.
Proof.
  destruct first_battery_reachable as (source & w & _ & R & _).
  exists source, w; split; [exact R |].
  refine (properties_valid _ PROP_UPDATE_TIME _ source w R _).
  cbn; tauto.
Defined.

(** X11.  All the life of a source its percentage is 0 as [g_object_new]
    left it or the clamped ratio of an update, so whenever it is a number
    the property battery-percentage lies within the bounds [-1, 100] of its
    spec. *)
Theorem percentage_property_valid et value source w :
  reachable (source, w) ->
  is_nan (battery_percentage source) = false ->
  (0 <=? battery_percentage source)%float = true /\
  (battery_percentage source <=? 100)%float = true /\
  match installed PROP_BATTERY_PERCENTAGE devkit_power_source_class_init with
  | Some pspec =>
      valid_for pspec (fst (get_property et PROP_BATTERY_PERCENTAGE value source w)) = true
  | None => False
  end.
Proof.
  intros R N; apply reachable_settled in R.
  destruct R as ((_ & (ratio & E) & _) & _).
  assert (Nr : is_nan ratio = false).
  { destruct (is_nan ratio) eqn:Q; [| reflexivity].
    apply is_nan_true in Q; rewrite E, (clamp_nan _ Q) in N.
    apply is_nan_true in Q; congruence. }
  destruct (clamp_range ratio Nr) as [L U]; rewrite <- E in L, U.
  split; [exact L | split; [exact U |]].
  cbn; apply andb_true_intro; split; [| exact U].
  rewrite leb_spec in *; apply is_nan_number in N.
  change (Prim2SF (-1)) with (S754_finite true 4503599627370496 (-52)).
  change (Prim2SF 0) with (S754_zero false) in L.
  destruct (Prim2SF (battery_percentage source)) as [s | [] | | [] m e];
    try reflexivity; try discriminate; now elim N.
Qed.

Lemma percentage_property_valid_witness :
  exists source w,
    reachable (source, w) /\ is_nan (battery_percentage source) = false /\
    (battery_percentage source <=? 100)%float = true.
Proof.
  destruct first_battery_reachable as (source & w & E & R & _).
  assert (N : is_nan (battery_percentage source) = false)
    by (vm_compute in E; injection E as <- _; reflexivity).
  exists source, w; split; [exact R | split; [exact N |]].
  exact (proj1 (proj2 (percentage_property_valid
                         {| devkit_power_convert_type_to_text := fun _ => "";
                            devkit_power_convert_state_to_text := fun _ => "";
                            devkit_power_convert_technology_to_text := fun _ => "" |}
                         (G_VALUE_DOUBLE 0) source w R N))).
Defined.

(** ** Battery updates overwrite *)

Lemma update_battery_overwrites pf source state energy full design rate percentage :
  update_battery pf
    (set_battery_state state
       (set_battery_energy energy
          (set_battery_energy_full full
             (set_battery_energy_full_design design
                (set_battery_energy_rate rate
                   (set_battery_percentage percentage source))))))
  = update_battery pf source.
Proof.
  destruct_source source; unfold update_battery; cbv zeta; source_fields.
  set (status := g_strstrip _).
  destruct (strcasecmp status "charging" =? 0),
           (strcasecmp status "discharging" =? 0);
    run_battery; reflexivity.
Qed.

Lemma source_rebuild s s' :
  d s' = d s -> object_path s' = object_path s -> native_path s' = native_path s ->
  poll_timer_id s' = poll_timer_id s -> vendor s' = vendor s -> model s' = model s ->
  serial s' = serial s -> update_time s' = update_time s -> type s' = type s ->
  line_power_online s' = line_power_online s ->
  battery_technology s' = battery_technology s ->
  battery_energy_empty s' = battery_energy_empty s ->
  battery_time_to_empty s' = battery_time_to_empty s ->
  battery_time_to_full s' = battery_time_to_full s ->
  s' = set_battery_state (battery_state s')
         (set_battery_energy (battery_energy s')
            (set_battery_energy_full (battery_energy_full s')
               (set_battery_energy_full_design (battery_energy_full_design s')
                  (set_battery_energy_rate (battery_energy_rate s')
                     (set_battery_percentage (battery_percentage s') s))))).
Proof.
  destruct s, s'; source_fields; intros; subst; reflexivity.
Qed.

(** X12.  A battery update overwrites its six fields wholesale: what state,
    energies, rate and percentage were before has no influence on the
    result, and a second update under the same readings changes nothing. *)
Theorem battery_update_overwrites pf source state energy full design rate percentage :
  update_battery pf
    (set_battery_state state
       (set_battery_energy energy
          (set_battery_energy_full full
             (set_battery_energy_full_design design
                (set_battery_energy_rate rate
                   (set_battery_percentage percentage source))))))
  = update_battery pf source /\
  update_battery pf (snd (update_battery pf source)) = update_battery pf source.
Proof.
  split; [apply update_battery_overwrites |].
  pose proof (update_battery_frame pf source) as F; cbv zeta in F.
  pose proof (update_battery_rest pf source) as R; cbv zeta in R.
  destruct F as (_ & F1 & F2 & F3 & F4 & F5 & F6 & F7 & F8 & F9 & F10 & F11).
  destruct R as (R1 & R2 & R3).
  rewrite (source_rebuild source (snd (update_battery pf source))) at 1
    by assumption.
  apply update_battery_overwrites.
Qed.

(** ** White space around the status *)

Lemma strchug_app lead s :
  all_space lead = true -> g_strchug (lead ++ s) = g_strchug s.
Proof.
  induction lead as [| c r IH]; cbn [all_space append g_strchug]; [reflexivity |].
  intros H; apply andb_prop in H; destruct H as [-> H]; exact (IH H).
Qed.

Lemma strchomp_space trail : all_space trail = true -> g_strchomp trail = "".
Proof.
  induction trail as [| c r IH]; cbn [all_space g_strchomp]; [reflexivity |].
  intros H; apply andb_prop in H; destruct H as [-> H]; rewrite (IH H); reflexivity.
Qed.

Lemma strchomp_app s trail :
  all_space trail = true -> g_strchomp (s ++ trail) = g_strchomp s.
Proof.
  intros H; induction s as [| c r IH]; cbn [append g_strchomp];
    [apply strchomp_space, H | rewrite IH; reflexivity].
Qed.

Lemma strchug_space trail : all_space trail = true -> g_strchug trail = "".
Proof.
  induction trail as [| c r IH]; cbn [all_space g_strchug]; [reflexivity |].
  intros H; apply andb_prop in H; destruct H as [-> H]; exact (IH H).
Qed.

Lemma strchug_keeps_tail s trail :
  all_space trail = true ->
  g_strchomp (g_strchug (s ++ trail)) = g_strchomp (g_strchug s).
Proof.
  intros H; induction s as [| c r IH]; cbn [append g_strchug].
  - rewrite (strchug_space trail H); reflexivity.
  - destruct (g_ascii_isspace c); [exact IH |].
    change (String c (r ++ trail)) with (String c r ++ trail).
    apply strchomp_app, H.
Qed.

(** [g_strstrip] does not see white space put around a string. *)
Lemma strstrip_padded lead s trail :
  all_space lead = true -> all_space trail = true ->
  g_strstrip (lead ++ s ++ trail) = g_strstrip s.
Proof.
  intros L T; unfold g_strstrip; rewrite strchug_app by exact L.
  apply strchug_keeps_tail, T.
Qed.

(** X13.  White space around the status attribute, such as the newline
    that ends a sysfs file, does not count: a platform whose status is that
    of another with white space before and after it, and whose numbers are
    the same, gives the same battery update. *)
Theorem status_padding_ignored pf pf' source lead trail :
  all_space lead = true -> all_space trail = true ->
  sysfs_get_string pf' (native_path source) "status"
  = lead ++ sysfs_get_string pf (native_path source) "status" ++ trail ->
  (forall name, sysfs_get_double pf' (native_path source) name
                = sysfs_get_double pf (native_path source) name) ->
  update_battery pf' source = update_battery pf source.
Proof.
  intros L T S D.
  destruct_source source; source_fields.
  unfold update_battery; cbv zeta; source_fields.
  rewrite S, (strstrip_padded _ _ _ L T), !D; reflexivity.
Qed.

Lemma status_padding_ignored_witness :
  update_battery (battery_dir ("Charging" ++ String "010" "") 50000000 100000000 2000000)
                 (new_instance BAT0 DEVKIT_POWER_TYPE_BATTERY)
  = update_battery (battery_dir "Charging" 50000000 100000000 2000000)
                   (new_instance BAT0 DEVKIT_POWER_TYPE_BATTERY).
Proof.
  apply (status_padding_ignored _ _ _ "" (String "010" ""));
    [reflexivity | reflexivity | reflexivity | intros name; reflexivity].
Defined.

(** ** Object paths, continued *)

Lemma object_path_of_device path :
  names_a_device path = true ->
  exists b, segment b /\
    g_path_get_basename path = string_of_list_ascii b /\
    compute_object_path path
    = "/sources/" ++ string_of_list_ascii (map dash_to_underscore b).
Proof.
  intros H; destruct (basename_segment path H) as (b & S & E).
  exists b; split; [exact S | split; [exact E |]].
  unfold compute_object_path, compute_object_path_from_basename.
  rewrite E, (basename_of_segment b S), string_map_of_list.
  apply build_under_sources, segment_after_loop, S.
Qed.

Lemma no_separator_in_segment b :
  forallb not_separator b = true -> string_mem "/" (string_of_list_ascii b) = false.
Proof.
  induction b as [| c r IH]; cbn [forallb string_of_list_ascii string_mem];
    [reflexivity |].
  intros H; apply andb_prop in H; destruct H as [Hc Hr]; rewrite (IH Hr), orb_false_r.
  unfold not_separator, is_dir_separator in Hc.
  rewrite Ascii.eqb_sym; destruct (Ascii.eqb c "/"); [discriminate | reflexivity].
Qed.

(** X14.  Every object path lies directly under "/sources/": for any
    native path at all it is "/sources/" followed by a part that has no '/'
    and no '-'. *)
Theorem object_path_shape native_path :
  exists part,
    compute_object_path native_path = "/sources/" ++ part /\
    string_mem "/" part = false /\ string_mem "-" part = false.
Proof.
  destruct (names_a_device native_path) eqn:H.
  - destruct (object_path_of_device native_path H) as (b & S & _ & E).
    exists (string_of_list_ascii (map dash_to_underscore b)); split; [exact E |].
    split.
    + apply no_separator_in_segment, segment_after_loop, S.
    + rewrite <- string_map_of_list; apply no_dash_after_loop.
  - unfold compute_object_path.
    destruct (basename_without_name native_path H) as [-> | ->];
      [exists "." | exists ""]; repeat split.
Qed.

(** X15.  Two native paths that name devices get the same object path
    exactly when their last segments are the same once every '-' is read
    as '_': so "dm-0" and "dm_0" share one object path. *)
Theorem object_paths_collide path path' :
  names_a_device path = true -> names_a_device path' = true ->
  (compute_object_path path = compute_object_path path' <->
   string_map dash_to_underscore (g_path_get_basename path)
   = string_map dash_to_underscore (g_path_get_basename path')).
Proof.
  intros H H'.
  destruct (object_path_of_device path H) as (b & _ & E & C).
  destruct (object_path_of_device path' H') as (b' & _ & E' & C').
  rewrite C, C', E, E', !string_map_of_list; split; intros K.
  - cbn [append] in K; now injection K.
  - now rewrite K.
Qed.

Lemma object_paths_collide_witness :
  g_path_get_basename "/sys/block/dm-0" <> g_path_get_basename "/sys/block/dm_0" /\
  compute_object_path "/sys/block/dm-0" = compute_object_path "/sys/block/dm_0".
Proof.
  split; [discriminate |].
  apply (proj2 (object_paths_collide "/sys/block/dm-0" "/sys/block/dm_0"
                  eq_refl eq_refl)).
  reflexivity.
Defined.

(** ** From the attributes to the properties *)

(** The battery branch of [update] is [update_battery] on a source with
    the same native path. *)
Lemma update_runs_update_battery pf source w :
  type source = DEVKIT_POWER_TYPE_BATTERY ->
  exists s0 id,
    native_path s0 = native_path source /\
    snd (fst (update pf source w)) = set_poll_timer_id id (snd (update_battery pf s0)).
Proof.
  intros Ty; unfold update.
  destruct_source source; source_fields; subst ty.
  destruct (0 <? pt); destruct ve; source_fields; world_fields;
    match goal with
    | |- context [update_battery ?pf ?s] =>
        rewrite (update_battery_pair pf s); cbn [fst snd];
        exists s; eexists; split; reflexivity
    end.
Qed.

(** X16.  What an update reads is what the properties then show:
    update-time is the clock at the update; for line power,
    line-power-online is whether the "online" attribute is not 0; for a
    battery, the energies are the attributes divided by 1,000,000, the rate
    is the size of the scaled current, negated when charging, and the
    percentage is the clamped ratio of the two energies. *)
Theorem update_then_get_property et pf source w value :
  let s' := snd (fst (update pf source w)) in
  let w' := snd (update pf source w) in
  let dir := native_path source in
  let reading name := (sysfs_get_double pf dir name / 1000000)%float in
  let show prop_id := fst (get_property et prop_id value s' w') in
  show PROP_UPDATE_TIME = G_VALUE_UINT64 (to_guint64 (now w)) /\
  match type source with
  | DEVKIT_POWER_TYPE_LINE_POWER =>
      show PROP_LINE_POWER_ONLINE
      = G_VALUE_BOOLEAN (negb (sysfs_get_int pf dir "online" =? 0))
  | DEVKIT_POWER_TYPE_BATTERY =>
      show PROP_BATTERY_ENERGY = G_VALUE_DOUBLE (reading "energy_now") /\
      show PROP_BATTERY_ENERGY_FULL = G_VALUE_DOUBLE (reading "energy_full") /\
      show PROP_BATTERY_ENERGY_FULL_DESIGN
      = G_VALUE_DOUBLE (reading "energy_full_design") /\
      show PROP_BATTERY_ENERGY_RATE
      = G_VALUE_DOUBLE
          (if eq_nocase (g_strstrip (sysfs_get_string pf dir "status")) "charging"
           then (- abs (reading "current_now"))%float
           else abs (reading "current_now")) /\
      show PROP_BATTERY_PERCENTAGE
      = G_VALUE_DOUBLE
          (clamp 0 100 (100 * reading "energy_now" / reading "energy_full"))
  end.
Proof.
  cbv zeta.
  pose proof (update_effect pf source w) as U; cbv zeta in U.
  destruct U as (_ & _ & _ & _ & _ & Ut & _).
  pose proof (update_fields pf source w) as F; cbv zeta in F.
  destruct F as (_ & _ & F).
  pose proof (update_runs_update_battery pf source w) as B.
  unfold get_property; cbn; rewrite Ut; split; [reflexivity |].
  destruct (type source).
  - destruct F as (-> & _); reflexivity.
  - destruct (B eq_refl) as (s0 & id & Np & E).
    pose proof (update_battery_fields pf s0) as G; cbv zeta in G.
    pose proof (percentage_is_clamp pf s0) as C; cbv zeta in C.
    rewrite Np, strcasecmp_eq_nocase, mul_minus_one in G.
    destruct G as (G1 & G2 & G3 & G4 & _).
    rewrite G1, G2 in C.
    rewrite E; destruct (snd (update_battery pf s0)); source_fields.
    rewrite G1, G2, G3, G4, C; repeat split.
Qed.

(** ** What construction reads *)

(** X17.  A source that [devkit_power_source_new] gives holds the
    descriptor and its native path, is line power exactly when the
    directory has an "online" attribute, and has its vendor, model and
    serial from the trimmed attributes "manufacturer", "model_name" and
    "serial_number" and its technology from the trimmed "technology". *)
Theorem construction_reads pf dev w source w' :
  devkit_power_source_new pf dev w = (Some source, w') ->
  let dir := devkit_device_get_native_path dev in
  d source = dev /\ native_path source = dir /\
  type source = (if sysfs_file_exists pf dir "online"
                 then DEVKIT_POWER_TYPE_LINE_POWER else DEVKIT_POWER_TYPE_BATTERY) /\
  vendor source = Some (g_strstrip (sysfs_get_string pf dir "manufacturer")) /\
  model source = Some (g_strstrip (sysfs_get_string pf dir "model_name")) /\
  serial source = Some (g_strstrip (sysfs_get_string pf dir "serial_number")) /\
  battery_technology source
  = devkit_power_convert_acpi_technology_to_enum pf
      (g_strstrip (sysfs_get_string pf dir "technology")).
Proof.
  unfold devkit_power_source_new, register_power_source.
  set (kind := if sysfs_file_exists pf _ "online" then _ else _).
  pose proof (update_effect pf (new_instance dev kind) w) as U; cbv zeta in U.
  pose proof (update_fields pf (new_instance dev kind) w) as F; cbv zeta in F.
  destruct (update pf (new_instance dev kind) w) as [[ok s1] w1]; cbn [fst snd] in *.
  destruct U as (-> & _ & _ & _ & _ & _ & Ty & Np & _ & Dd & _).
  destruct F as (_ & F & _); cbn [vendor new_instance native_path] in F.
  cbn [negb]; destruct (system_bus_up w1); cbn [negb]; [| discriminate].
  intros E; injection E as <- <-; cbv zeta.
  destruct_source s1; source_fields; cbn in Ty, Np, Dd.
  repeat split; tauto.
Qed.

Lemma construction_reads_witness :
  exists source w',
    devkit_power_source_new (battery_dir "Discharging" 50000000 100000000 2000000)
                            BAT0 boot = (Some source, w') /\
    vendor source = Some "SANYO" /\
    battery_technology source = DEVKIT_POWER_TECHNOLOGY_LITHIUM_ION.
Proof.
  destruct first_battery_reachable as (source & w & E & _).
  exists source, w; split; [exact E |].
  pose proof (construction_reads _ _ _ _ _ E) as K; cbv zeta in K.
  destruct K as (_ & _ & _ & V & _ & _ & T); split; [exact V | exact T].
Defined.
